(** * Starship: frame scheduler and input state tracker

    A shallow embedding of [src/index.ts]: the keyboard handlers and
    button queries ([keyToButton], [BUTTONS], [window.onkeydown],
    [window.onkeyup], [isButtonDown], [isButtonPressed]), the frame
    scheduler ([setAnimationFrame] with its inner [start] and [stop]),
    the loop driver ([run]), the sound cache ([playSound], [stopSound],
    [isSoundPlaying]) and the drawing of sprites and text ([drawSprite],
    [drawText]).

    Numbers.  A JavaScript number is a binary64 value.  A finite value
    is given by the rational it denotes; the negative zero, the
    infinities and NaN are values of their own in the type [number].
    Storing and comparing are exact on rationals.  The subtractions and
    divisions of the scheduler and of the button queries ([now - then],
    [1000 / fps], [a / 255]) round their exact result to the nearest
    binary64 value, ties to even ([RN]); the remainder [%] of two
    binary64 values is a binary64 value and is not rounded.  The sums
    and products of the layout of a text are taken over pixel counts and
    are kept exact.  The host clock [performance.now()] is an input of
    every operation that reads it. *)

From Stdlib Require Import QArith ZArith List String Bool Lia Lqa.
From Stdlib Require Import Qround.
From Stdlib Require Floats.
Import ListNotations.

Local Open Scope string_scope.
Local Open Scope list_scope.
Local Open Scope Q_scope.

(* ------------------------------------------------------------------ *)
(** ** Rational helpers *)

Definition Qlt_bool (x y : Q) : bool := negb (Qle_bool y x).

(* ------------------------------------------------------------------ *)
(** ** JavaScript numbers *)

(** A binary64 value: a finite value, given by the rational it denotes
    ([Fin 0] is the positive zero), an infinity, NaN, or the negative
    zero [NZ]. *)
Inductive number : Set :=
| Fin (q : Q)
| PInf
| NInf
| NaN
| NZ.

(** The integer nearest to [N / D], the even one of two that are equally
    near. *)
Definition round_half_even (N D : Z) : Z :=
  let (q, r) := Z.div_eucl N D in
  match (2 * r ?= D)%Z with
  | Lt => q
  | Eq => if Z.even q then q else (q + 1)%Z
  | Gt => (q + 1)%Z
  end.

(** Every finite binary64 value is a whole multiple of [2 ^ -1074], the
    least positive one.  [RN_int n d] is the multiple that stands for the
    rounded value of the positive rational [n / d]: the value is written
    in units of [2 ^ -1074]; below [2 ^ 53] units every whole number of
    them is a value (these are the subnormal values and the first normal
    binade), and from there on a value keeps 53 significant bits, so the
    spacing is [2 ^ e] units for the [e] that leaves 53 bits. *)
Definition RN_int (n d : positive) : Z :=
  let N := (Zpos n * 2 ^ 1074)%Z in
  let e := Z.max (Z.log2 (N / Zpos d) - 52) 0 in
  (round_half_even N (Zpos d * 2 ^ e) * 2 ^ e)%Z.

(** Rounding of the positive rational [n / d], with the sign [neg] put
    back: a result of [2 ^ 1024] or more overflows to an infinity, a
    result of zero keeps the sign. *)
Definition RN_pos (neg : bool) (n d : positive) : number :=
  let M := RN_int n d in
  if (2 ^ 2098 <=? M)%Z then (if neg then NInf else PInf)
  else if (M =? 0)%Z then (if neg then NZ else Fin 0)
  else Fin (Qred ((if neg then (- M)%Z else M) # 2 ^ 1074)).

(** Round to nearest, ties to even: the binary64 value of the exact
    result [q] of an operation. *)
Definition RN (q : Q) : number :=
  match Qnum (Qred q) with
  | Z0 => Fin 0
  | Zpos n => RN_pos false n (Qden (Qred q))
  | Zneg n => RN_pos true n (Qden (Qred q))
  end.

(** The rational is a binary64 value: rounding gives it back. *)
Definition is_double (q : Q) : Prop :=
  exists r, RN q = Fin r /\ r == q.

(** The sign bit, and the tests for a zero and for an infinity. *)
Definition num_neg (a : number) : bool :=
  match a with
  | Fin q => Qlt_bool q 0
  | NZ => true
  | NInf => true
  | PInf => false
  | NaN => false
  end.

Definition num_zero (a : number) : bool :=
  match a with
  | Fin q => Qeq_bool q 0
  | NZ => true
  | _ => false
  end.

Definition num_inf (a : number) : bool :=
  match a with
  | PInf => true
  | NInf => true
  | _ => false
  end.

Definition signed_zero (neg : bool) : number := if neg then NZ else Fin 0.

Definition signed_inf (neg : bool) : number := if neg then NInf else PInf.

(** Truncation toward zero and the remainder of [%] on finite operands
    (the result has the sign of the dividend). *)
Definition Qtrunc (x : Q) : Z := Z.quot (Qnum x) (Zpos (Qden x)).

Definition Qrem (a b : Q) : Q := a - b * inject_Z (Qtrunc (a / b)).

(** [a - b]: the exact difference, rounded.  Taking a zero from a value
    leaves the value, and taking a value from a zero negates it; neither
    rounds. *)
Definition nsub (a b : number) : number :=
  match a, b with
  | NaN, _ => NaN
  | _, NaN => NaN
  | PInf, PInf => NaN
  | NInf, NInf => NaN
  | PInf, _ => PInf
  | NInf, _ => NInf
  | _, PInf => NInf
  | _, NInf => PInf
  | Fin x, Fin y => if Qeq_bool y 0 then Fin x else RN (x - y)
  | Fin x, NZ => Fin x
  | NZ, Fin y => if Qeq_bool y 0 then NZ else Fin (- y)
  | NZ, NZ => Fin 0
  end.

(** [a % b]: the remainder of two binary64 values is one, so nothing is
    rounded; a zero result has the sign of the dividend. *)
Definition nrem (a b : number) : number :=
  match a, b with
  | NaN, _ => NaN
  | _, NaN => NaN
  | PInf, _ => NaN
  | NInf, _ => NaN
  | _, NZ => NaN
  | Fin x, PInf => Fin x
  | Fin x, NInf => Fin x
  | NZ, PInf => NZ
  | NZ, NInf => NZ
  | NZ, Fin y => if Qeq_bool y 0 then NaN else NZ
  | Fin x, Fin y =>
      if Qeq_bool y 0 then NaN
      else if Qeq_bool (Qrem x y) 0
           then (if Qlt_bool x 0 then NZ else Fin 0)
           else Fin (Qrem x y)
  end.

(** [a / b]: the exact quotient, rounded; the sign of a zero or infinite
    result is the product of the signs. *)
Definition ndiv (a b : number) : number :=
  match a, b with
  | NaN, _ => NaN
  | _, NaN => NaN
  | _, _ =>
      let neg := xorb (num_neg a) (num_neg b) in
      if num_inf a then (if num_inf b then NaN else signed_inf neg)
      else if num_inf b then signed_zero neg
      else if num_zero b then (if num_zero a then NaN else signed_inf neg)
      else if num_zero a then signed_zero neg
      else match a, b with
           | Fin x, Fin y => RN (x / y)
           | _, _ => NaN
           end
  end.

(** [a > b]; the two zeros compare equal. *)
Definition ngt (a b : number) : bool :=
  match a, b with
  | NaN, _ => false
  | _, NaN => false
  | PInf, PInf => false
  | PInf, _ => true
  | NInf, _ => false
  | _, PInf => false
  | _, NInf => true
  | Fin x, Fin y => Qlt_bool y x
  | Fin x, NZ => Qlt_bool 0 x
  | NZ, Fin y => Qlt_bool y 0
  | NZ, NZ => false
  end.

(* ------------------------------------------------------------------ *)
(** ** The kernel's binary64 numbers *)

Module Binary64.
Import PrimFloat FloatOps SpecFloat.

(** The value of one of the kernel's binary64 numbers: sign, mantissa
    and exponent of a finite one give the rational [m * 2 ^ e]. *)
Definition to_number (f : float) : number :=
  match Prim2SF f with
  | S754_zero false => Fin 0
  | S754_zero true => NZ
  | S754_infinity false => PInf
  | S754_infinity true => NInf
  | S754_nan => NaN
  | S754_finite s m e =>
      let z := if s then Zneg m else Zpos m in
      Fin (Qred (if (0 <=? e)%Z then inject_Z (z * 2 ^ e)
                 else z # Z.to_pos (2 ^ (- e))))
  end.

(** The operations of the model agree with the kernel's on the pair. *)
Definition sub_agrees (x y : float) : bool :=
  match nsub (to_number x) (to_number y), to_number (x - y)%float with
  | Fin a, Fin b => Qeq_bool a b
  | PInf, PInf => true
  | NInf, NInf => true
  | NaN, NaN => true
  | NZ, NZ => true
  | _, _ => false
  end.

Definition div_agrees (x y : float) : bool :=
  match ndiv (to_number x) (to_number y), to_number (x / y)%float with
  | Fin a, Fin b => Qeq_bool a b
  | PInf, PInf => true
  | NInf, NInf => true
  | NaN, NaN => true
  | NZ, NZ => true
  | _, _ => false
  end.
End Binary64.

(* ------------------------------------------------------------------ *)
(** ** IO: buttons and the key table *)

(** [export enum Button]: the members and their numeric values. *)
Module Button.
Inductive t : Set :=
| A | B | Up | Down | Left | Right | Start | Select.

Definition code (b : t) : Z :=
  match b with
  | A => 90
  | B => 88
  | Up => 265
  | Down => 264
  | Left => 263
  | Right => 262
  | Start => 257
  | Select => 32
  end%Z.
End Button.

(** Truthiness of an enum member, as tested by [if (btn)]. *)
Definition button_truthy (b : Button.t) : bool :=
  negb (Z.eqb (Button.code b) 0).

(** [function keyToButton(key: string): void | Button]: a [switch] on the
    key string (strict equality); [None] is the [undefined] of the
    fall-through. *)
Definition keyToButton (key : string) : option Button.t :=
  if String.eqb key "z" then Some Button.A
  else if String.eqb key "x" then Some Button.B
  else if String.eqb key "ArrowUp" then Some Button.Up
  else if String.eqb key "ArrowDown" then Some Button.Down
  else if String.eqb key "ArrowLeft" then Some Button.Left
  else if String.eqb key "ArrowRight" then Some Button.Right
  else if String.eqb key "Enter" then Some Button.Start
  else if String.eqb key " " then Some Button.Select
  else None.

(** The [case] labels of that [switch]: the static mapping table. *)
Definition case_labels : list string :=
  ["z"; "x"; "ArrowUp"; "ArrowDown"; "ArrowLeft"; "ArrowRight"; "Enter"; " "].

(** The object [BUTTONS : { [key in Button]: number }]: one numeric slot
    per enum member. *)
Record ButtonState : Set := mkButtons {
  slotA : Q; slotB : Q; slotUp : Q; slotDown : Q;
  slotLeft : Q; slotRight : Q; slotStart : Q; slotSelect : Q
}.

Definition BUTTONS : ButtonState := mkButtons 0 0 0 0 0 0 0 0.

(** [BUTTONS[btn]] *)
Definition get (s : ButtonState) (btn : Button.t) : Q :=
  match btn with
  | Button.A => slotA s
  | Button.B => slotB s
  | Button.Up => slotUp s
  | Button.Down => slotDown s
  | Button.Left => slotLeft s
  | Button.Right => slotRight s
  | Button.Start => slotStart s
  | Button.Select => slotSelect s
  end.

(** [BUTTONS[btn] = v] *)
Definition set (s : ButtonState) (btn : Button.t) (v : Q) : ButtonState :=
  let (a, b, u, d, l, r, st, se) := s in
  match btn with
  | Button.A => mkButtons v b u d l r st se
  | Button.B => mkButtons a v u d l r st se
  | Button.Up => mkButtons a b v d l r st se
  | Button.Down => mkButtons a b u v l r st se
  | Button.Left => mkButtons a b u d v r st se
  | Button.Right => mkButtons a b u d l v st se
  | Button.Start => mkButtons a b u d l r v se
  | Button.Select => mkButtons a b u d l r st v
  end.

(** [window.onkeyup]: [if (btn) BUTTONS[btn] = 0]. *)
Definition onkeyup (key : string) (s : ButtonState) : ButtonState :=
  match keyToButton key with
  | Some btn => if button_truthy btn then set s btn 0 else s
  | None => s
  end.

(** [window.onkeydown]: [if (btn && !BUTTONS[btn]) BUTTONS[btn] =
    performance.now()]; [now] is that clock reading.  A number is falsy
    exactly when it is zero. *)
Definition onkeydown (key : string) (now : Q) (s : ButtonState)
  : ButtonState :=
  match keyToButton key with
  | Some btn =>
      if button_truthy btn && Qeq_bool (get s btn) 0
      then set s btn now else s
  | None => s
  end.

(** [isButtonDown(btn)]: [BUTTONS[btn] > 0]. *)
Definition isButtonDown (btn : Button.t) (s : ButtonState) : bool :=
  Qlt_bool 0 (get s btn).

(** One frame at 60 FPS: the literal [16.666], which denotes the
    binary64 value nearest to it. *)
Definition ONE_FRAME : number := RN (16666 # 1000).

(** [isButtonPressed(btn)]: [performance.now() - BUTTONS[btn] < 16.666],
    with the difference rounded as the code's subtraction rounds it. *)
Definition isButtonPressed (btn : Button.t) (now : Q) (s : ButtonState)
  : bool :=
  let delta := nsub (Fin now) (Fin (get s btn)) in
  ngt ONE_FRAME delta.

(** The greatest exact difference whose rounding is below [ONE_FRAME]:
    the point half-way between the value of the literal and the
    binary64 value before it. *)
Definition PRESS_LIMIT : Q := 9382123923719585 # 562949953421312.

(** Keyboard events as the host delivers them; a key-down carries the
    clock reading its handler obtains. *)
Inductive KeyEvent : Set :=
| KeyDown (key : string) (now : Q)
| KeyUp (key : string).

Definition handle (s : ButtonState) (e : KeyEvent) : ButtonState :=
  match e with
  | KeyDown key now => onkeydown key now s
  | KeyUp key => onkeyup key s
  end.

Definition handle_all (es : list KeyEvent) (s : ButtonState) : ButtonState :=
  fold_left handle es s.

(** The clock reading of an event is not negative (key-up reads no clock). *)
Definition clock_nonneg (e : KeyEvent) : Prop :=
  match e with
  | KeyDown _ now => 0 <= now
  | KeyUp _ => True
  end.

(** The event is a release of button [b]. *)
Definition releases (e : KeyEvent) (b : Button.t) : Prop :=
  match e with
  | KeyUp key => keyToButton key = Some b
  | KeyDown _ _ => False
  end.

(* ------------------------------------------------------------------ *)
(** ** JavaScript values that the scheduler handles *)

(** The values a callback can return or throw. *)
Inductive jsval : Set :=
| JUndefined
| JNull
| JBool (b : bool)
| JNum (n : number)
| JStr (s : string)
| JObj (label : string).

(** ToBoolean. *)
Definition truthy (v : jsval) : bool :=
  match v with
  | JUndefined => false
  | JNull => false
  | JBool b => b
  | JNum (Fin q) => negb (Qeq_bool q 0)
  | JNum NaN => false
  | JNum NZ => false
  | JNum _ => true
  | JStr EmptyString => false
  | JStr _ => true
  | JObj _ => true
  end.

(** How a call ends: it returns a value or throws one. *)
Inductive completion (A : Type) : Type :=
| Return (a : A)
| Throw (e : jsval).
Arguments Return {A} a.
Arguments Throw {A} e.

(* ------------------------------------------------------------------ *)
(** ** A state monad with exceptions

    JavaScript statements read and write a store and may throw; what was
    written before a throw stays written. *)

Definition M (S A : Type) : Type := S -> completion A * S.

Definition ret {S A} (a : A) : M S A := fun s => (Return a, s).

Definition bind {S A B} (m : M S A) (k : A -> M S B) : M S B :=
  fun s =>
    match m s with
    | (Return a, s') => k a s'
    | (Throw e, s') => (Throw e, s')
    end.

Definition gets {S A} (f : S -> A) : M S A := fun s => (Return (f s), s).

Definition modify {S} (f : S -> S) : M S unit := fun s => (Return tt, f s).

(** [try { body } catch (err) { handler err }] *)
Definition try_catch {S A} (body : M S A) (handler : jsval -> M S A)
  : M S A :=
  fun s =>
    match body s with
    | (Return a, s') => (Return a, s')
    | (Throw e, s') => handler e s'
    end.

Declare Scope js_scope.
Delimit Scope js_scope with js.
Notation "x <- c1 ;; c2" := (bind c1 (fun x => c2))
  (at level 61, c1 at next level, right associativity) : js_scope.
Notation "c1 ;; c2" := (bind c1 (fun _ => c2))
  (at level 61, right associativity) : js_scope.

(* ------------------------------------------------------------------ *)
(** ** The host: animation-frame requests and the global timer slot *)

(** [raf_pending] lists the handles of the requests for [start] that the
    host has accepted and neither delivered nor cancelled; [raf_next] is
    the handle the next request gets; [STARSHIP_TIMER] is the slot
    [globalThis.STARSHIP_TIMER] ([None] while it is undefined). *)
Record Host : Set := mkHost {
  raf_next : nat;
  raf_pending : list nat;
  STARSHIP_TIMER : option nat
}.

Definition fresh_host : Host := mkHost 1 [] None.

Definition requestAnimationFrame (h : Host) : nat * Host :=
  (raf_next h,
   mkHost (S (raf_next h)) (raf_pending h ++ [raf_next h]) (STARSHIP_TIMER h)).

Definition cancelAnimationFrame (id : option nat) (h : Host) : Host :=
  match id with
  | Some i =>
      mkHost (raf_next h)
             (filter (fun j => negb (Nat.eqb j i)) (raf_pending h))
             (STARSHIP_TIMER h)
  | None => h
  end.

Definition set_timer (id : nat) (h : Host) : Host :=
  mkHost (raf_next h) (raf_pending h) (Some id).

(** The returned closure [stop]:
    [cancelAnimationFrame(globalThis.STARSHIP_TIMER)]. *)
Definition stop (h : Host) : Host :=
  cancelAnimationFrame (STARSHIP_TIMER h) h.

(** The host part of a notification: the request is re-armed and its
    handle put in the timer slot. *)
Definition rearm (h : Host) : Host :=
  set_timer (raf_next h) (snd (requestAnimationFrame h)).

(* ------------------------------------------------------------------ *)
(** ** The frame scheduler: [setAnimationFrame] *)

(** The closure variables of one [setAnimationFrame] call:
    [then], [now], [delta] and [error]; the last three are declared
    without a value. *)
Record Sched : Set := mkSched {
  then_ : number;
  now_ : option number;
  delta_ : option number;
  error_ : jsval
}.

(** What the scheduler is seen to do: a call of the callback, noted
    with how the call ended, and a [console.log(err)]. *)
Inductive Obs : Set :=
| Called (r : completion unit)
| Logged (err : jsval).

Definition is_called (o : Obs) : bool :=
  match o with Called _ => true | Logged _ => false end.

Definition is_failed (o : Obs) : bool :=
  match o with Called (Throw _) => true | _ => false end.

Definition is_logged (o : Obs) : bool :=
  match o with Called _ => false | Logged _ => true end.

(** Number of callback invocations, of invocations that threw, and of
    log lines, in a trace. *)
Definition ticks (l : list Obs) : nat := List.length (filter is_called l).
Definition failed (l : list Obs) : nat := List.length (filter is_failed l).
Definition logs (l : list Obs) : nat := List.length (filter is_logged l).

(** Either no call failed and nothing was logged, or the first failed
    call is followed by the log line of what it threw and that is the
    only log line of the trace. *)
Definition first_failure_logged (l : list Obs) : Prop :=
  (failed l = 0%nat /\ logs l = 0%nat) \/
  (exists pre e post,
      l = pre ++ Called (Throw e) :: Logged e :: post /\
      failed pre = 0%nat /\ logs pre = 0%nat /\ logs post = 0%nat).

Section Scheduler.
(** [C] is whatever the callback closes over. *)
Variable C : Type.

(** A callback reads and writes its own variables and may use the host
    (it can hold the [stop] closure); it has no access to the
    scheduler's closure variables. *)
Definition callback : Type := M (C * Host) unit.

Record World : Type := mkWorld {
  sched : Sched;
  client : C;
  host : Host;
  out : list Obs
}.

Definition on_host (f : Host -> Host) : M World unit :=
  modify (fun w => mkWorld (sched w) (client w) (f (host w)) (out w)).

Definition on_sched (f : Sched -> Sched) : M World unit :=
  modify (fun w => mkWorld (f (sched w)) (client w) (host w) (out w)).

Definition emit (o : Obs) : M World unit :=
  modify (fun w => mkWorld (sched w) (client w) (host w) (out w ++ [o])).

Definition request_frame : M World nat :=
  fun w =>
    let (id, h) := requestAnimationFrame (host w) in
    (Return id, mkWorld (sched w) (client w) h (out w)).

(** [cb()], noted in the trace. *)
Definition call (cb : callback) : M World unit :=
  fun w =>
    let '(r, (c, h)) := cb (client w, host w) in
    (r, mkWorld (sched w) c h (out w ++ [Called r])).

Definition set_then (v : number) (s : Sched) : Sched :=
  mkSched v (now_ s) (delta_ s) (error_ s).
Definition set_now (v : number) (s : Sched) : Sched :=
  mkSched (then_ s) (Some v) (delta_ s) (error_ s).
Definition set_delta (v : number) (s : Sched) : Sched :=
  mkSched (then_ s) (now_ s) (Some v) (error_ s).
Definition set_error (v : jsval) (s : Sched) : Sched :=
  mkSched (then_ s) (now_ s) (delta_ s) v.

(** The inner function [start]; [fps] is the parameter of that name
    (the interval in milliseconds) and [now] the clock reading. *)
Definition start (cb : callback) (fps : number) (now : Q)
  : M World unit :=
  (id <- request_frame ;;
   on_host (set_timer id) ;;
   on_sched (set_now (Fin now)) ;;
   t <- gets (fun w => then_ (sched w)) ;;
   let delta := nsub (Fin now) t in
   on_sched (set_delta delta) ;;
   if ngt delta fps then
     on_sched (set_then (nsub (Fin now) (nrem delta fps))) ;;
     try_catch (call cb)
       (fun err =>
          e <- gets (fun w => error_ (sched w)) ;;
          if negb (truthy e) then
            on_sched (set_error err) ;;
            emit (Logged err)
          else ret tt)
   else ret tt)%js.

(** [setAnimationFrame(cb, fps)]: [t0] is the clock reading that
    initialises [then], [t1] the one of the first, direct, call of
    [start]. *)
Definition setAnimationFrame (cb : callback) (fps : number) (t0 t1 : Q)
    (c : C) (h : Host) : completion unit * World :=
  (on_host stop ;; start cb fps t1)%js
    (mkWorld (mkSched (Fin t0) None None JUndefined) c h []).

(** The host delivers request [id] at clock reading [now]: a request
    that is no longer pending is not delivered; an exception leaving
    the handler would be reported by the host and go no further. *)
Definition deliver (cb : callback) (fps : number) (now : Q) (id : nat)
    (w : World) : World :=
  if existsb (Nat.eqb id) (raf_pending (host w)) then
    snd (start cb fps now
           (mkWorld (sched w) (client w)
              (cancelAnimationFrame (Some id) (host w)) (out w)))
  else w.

(** One animation frame: the requests pending when the frame begins
    are delivered in order. *)
Definition frame (cb : callback) (fps : number) (now : Q) (w : World)
  : World :=
  fold_left (fun w' id => deliver cb fps now id w')
            (raf_pending (host w)) w.

(** A sequence of frames at the given clock readings. *)
Definition frames (cb : callback) (fps : number) (ts : list Q)
    (w : World) : World :=
  fold_left (fun w' t => frame cb fps t w') ts w.

(** A callback that does not use the host. *)
Definition client_only (f : M C unit) : callback :=
  fun ch =>
    let (r, c) := f (fst ch) in (r, (c, snd ch)).

(** The callback leaves the host as it finds it. *)
Definition leaves_host (cb : callback) : Prop :=
  forall c h, snd (snd (cb (c, h))) = h.

(** Whatever the callback throws is truthy (an [Error] object, say). *)
Definition throws_truthy (cb : callback) : Prop :=
  forall s e s', cb s = (Throw e, s') -> truthy e = true.
End Scheduler.

Arguments mkWorld {C}.
Arguments sched {C}.
Arguments client {C}.
Arguments host {C}.
Arguments out {C}.
Arguments on_host {C}.
Arguments on_sched {C}.
Arguments emit {C}.
Arguments request_frame {C}.
Arguments call {C}.
Arguments start {C}.
Arguments setAnimationFrame {C}.
Arguments deliver {C}.
Arguments frame {C}.
Arguments frames {C}.
Arguments client_only {C}.
Arguments leaves_host {C}.
Arguments throws_truthy {C}.

(** Sample callbacks over a counter: one that counts its calls, one that
    counts and throws an [Error] object, one that counts and throws
    [undefined]. *)
Definition count_calls : callback nat :=
  client_only (fun n : nat => (Return tt, S n)).

Definition throw_error : callback nat :=
  client_only (fun n : nat => (Throw (JObj "Error"), S n)).

Definition throw_undefined : callback nat :=
  client_only (fun n : nat => (Throw JUndefined, S n)).

(** A callback that holds the [stop] closure: it counts, stops the
    scheduler and throws an [Error] object. *)
Definition stop_and_throw : callback nat :=
  fun ch => (Throw (JObj "Error"), (S (fst ch), stop (snd ch))).

(** Exactly one request is pending and the timer slot holds its handle. *)
Definition armed (h : Host) : Prop :=
  exists id, raf_pending h = [id] /\ STARSHIP_TIMER h = Some id.

(** Every pending request is the one the timer slot names. *)
Definition slot_owns_pending (h : Host) : Prop :=
  forall id, In id (raf_pending h) -> STARSHIP_TIMER h = Some id.

(** How the error slot and the trace go together: while the slot is falsy
    no call has failed and nothing is logged; once it is truthy the first
    failure has been logged and nothing else. *)
Definition log_inv (sc : Sched) (l : list Obs) : Prop :=
  (truthy (error_ sc) = false /\ failed l = 0%nat /\ logs l = 0%nat) \/
  (truthy (error_ sc) = true /\
   exists pre e post,
     l = pre ++ Called (Throw e) :: Logged e :: post /\
     failed pre = 0%nat /\ logs pre = 0%nat /\ logs post = 0%nat).

(* ------------------------------------------------------------------ *)
(** ** The loop driver: [run] *)

Module Vector2.
Record t : Set := mk { x : number; y : number }.
End Vector2.

(** [interface StarshipConfig] *)
Record StarshipConfig : Set := mkConfig {
  title : string;
  canvas : Vector2.t;
  window : option Vector2.t;
  fps : option number
}.

(** The calls [run] makes to the user's callbacks, with how each ended. *)
Inductive Call : Set :=
| CUpdate (r : completion jsval)
| CDestroy (r : completion unit).

Section Run.
(** [T] is the game state, [E] the type of queued events. *)
Variables T E : Type.

(** The variables the arrow function of [run] closes over: [state],
    [queue], and the binding [stop], which has no value until
    [setAnimationFrame] has returned.  [calls] notes the calls made. *)
Record Loop : Type := mkLoop {
  state : T;
  queue : list E;
  stop_bound : bool;
  calls : list Call
}.

(** [init()] as its outcome. *)
Definition StarshipInit : Type := completion T.

(** [destroy(state)]: may change the state object, may throw. *)
Definition StarshipDestroy : Type := M T unit.

(** [update(state, queue)]: may change both objects, may throw. *)
Definition StarshipUpdate : Type := M (T * list E) jsval.

Definition call_update (update : StarshipUpdate) : M (Loop * Host) jsval :=
  fun lh =>
    let '(r, (st, q)) := update (state (fst lh), queue (fst lh)) in
    (r, (mkLoop st q (stop_bound (fst lh))
           (calls (fst lh) ++ [CUpdate r]), snd lh)).

Definition call_destroy (destroy : StarshipDestroy) : M (Loop * Host) unit :=
  fun lh =>
    let (r, st) := destroy (state (fst lh)) in
    (r, (mkLoop st (queue (fst lh)) (stop_bound (fst lh))
           (calls (fst lh) ++ [CDestroy r]), snd lh)).

(** [stop()]: while the binding has no value the reference throws. *)
Definition call_stop : M (Loop * Host) unit :=
  fun lh =>
    if stop_bound (fst lh)
    then (Return tt, (fst lh, stop (snd lh)))
    else (Throw (JObj "ReferenceError"), lh).

(** The arrow function handed to [setAnimationFrame]. *)
Definition tick (destroy : StarshipDestroy) (update : StarshipUpdate)
  : callback Loop :=
  (r <- call_update update ;;
   if truthy r then
     call_destroy destroy ;;
     call_stop
   else ret tt)%js.

(** [const stop = ...]: the binding receives its value. *)
Definition bind_stop (w : World Loop) : World Loop :=
  mkWorld (sched w)
    (mkLoop (state (client w)) (queue (client w)) true (calls (client w)))
    (host w) (out w).

(** The interval [1000 / (config.fps ?? 60)]. *)
Definition interval (config : StarshipConfig) : number :=
  ndiv (Fin 1000)
       (match fps config with Some n => n | None => Fin 60 end).

(** [run(config, init, destroy, update)]; the canvas set-up is left
    out.  [t0] and [t1] are the two clock readings of
    [setAnimationFrame]. *)
Definition run (config : StarshipConfig) (init : StarshipInit)
    (destroy : StarshipDestroy) (update : StarshipUpdate)
    (t0 t1 : Q) (h : Host) : completion (World Loop) :=
  match init with
  | Throw e => Throw e
  | Return st =>
      match setAnimationFrame (tick destroy update) (interval config)
              t0 t1 (mkLoop st [] false []) h with
      | (Return _, w) => Return (bind_stop w)
      | (Throw e, _) => Throw e
      end
  end.
End Run.

Arguments mkLoop {T E}.
Arguments state {T E}.
Arguments queue {T E}.
Arguments stop_bound {T E}.
Arguments calls {T E}.
Arguments call_update {T E}.
Arguments call_destroy {T E}.
Arguments call_stop {T E}.
Arguments tick {T E}.
Arguments bind_stop {T E}.
Arguments run {T E}.

(** The world of a running loop after frames at the clock readings
    [ts]. *)
Definition loop_frames {T E : Type} (config : StarshipConfig)
    (destroy : StarshipDestroy T) (update : StarshipUpdate T E)
    (ts : list Q) (w : World (Loop T E)) : World (Loop T E) :=
  frames (tick destroy update) (interval config) ts w.

(** Sample programs over a counter: a configuration without [fps]; an
    update that counts and always asks to end; an update that counts and
    asks to end from its second call on; a destroy that returns and one
    that throws an [Error] object. *)
Definition sample_config : StarshipConfig :=
  mkConfig "game" (Vector2.mk (Fin 320) (Fin 240)) None None.

Definition update_always : StarshipUpdate nat unit :=
  fun sq => (Return (JBool true), (S (fst sq), snd sq)).

Definition update_second : StarshipUpdate nat unit :=
  fun sq => (Return (JBool (Nat.leb 1 (fst sq))), (S (fst sq), snd sq)).

Definition destroy_ok : StarshipDestroy nat :=
  fun n => (Return tt, n).

Definition destroy_throws : StarshipDestroy nat :=
  fun n => (Throw (JObj "Error"), n).

(* ------------------------------------------------------------------ *)
(** ** Notions used to state further properties *)

(** The shape of the call log of [run]: an update that threw or returned
    a falsy value stands alone; an update that returned a truthy value is
    followed at once by the one call of destroy it causes. *)
Inductive calls_ok : list Call -> Prop :=
| calls_ok_nil : calls_ok []
| calls_ok_go (l : list Call) (r : completion jsval) :
    calls_ok l ->
    (forall v, r = Return v -> truthy v = false) ->
    calls_ok (l ++ [CUpdate r])
| calls_ok_end (l : list Call) (v : jsval) (r : completion unit) :
    calls_ok l ->
    truthy v = true ->
    calls_ok (l ++ [CUpdate (Return v); CDestroy r]).

Definition is_destroy (c : Call) : bool :=
  match c with CDestroy _ => true | CUpdate _ => false end.

(** The update callback never returns a truthy value. *)
Definition never_ends {T E : Type} (update : StarshipUpdate T E) : Prop :=
  forall s v s', update s = (Return v, s') -> truthy v = false.

(** The key string an event carries. *)
Definition event_key (e : KeyEvent) : string :=
  match e with
  | KeyDown key _ => key
  | KeyUp key => key
  end.

(** An update that counts and returns nothing. *)
Definition update_never : StarshipUpdate nat unit :=
  fun sq => (Return JUndefined, (S (fst sq), snd sq)).

(* ------------------------------------------------------------------ *)
(** ** Audio *)

(** A [Map<string, V>] with the three operations the code uses; entries
    are kept in insertion order and [set] on a present key replaces its
    value in place. *)
Definition JsMap (V : Type) : Type := list (string * V).

Fixpoint js_get {V : Type} (k : string) (m : JsMap V) : option V :=
  match m with
  | [] => None
  | (k', v) :: m' => if String.eqb k k' then Some v else js_get k m'
  end.

Definition js_has {V : Type} (k : string) (m : JsMap V) : bool :=
  match js_get k m with Some _ => true | None => false end.

Fixpoint js_set {V : Type} (k : string) (v : V) (m : JsMap V) : JsMap V :=
  match m with
  | [] => [(k, v)]
  | (k', v') :: m' =>
      if String.eqb k k' then (k, v) :: m' else (k', v') :: js_set k v m'
  end.

Definition js_keys {V : Type} (m : JsMap V) : list string := map fst m.

(** The two attributes of an [HTMLAudioElement] that the code reads or
    writes.  What the host does to [currentTime] while a sound plays is
    not tracked. *)
Record Audio : Set := mkAudio {
  paused : bool;
  currentTime : Q
}.

(** [new Audio(src)] *)
Definition new_Audio : Audio := mkAudio true 0.

(** [audio.play()]: the host either starts playback, which clears
    [paused], or refuses (autoplay policy, unsupported source), which
    leaves the element as it is and rejects the promise; the rejection is
    swallowed by [.then(noop).catch(noop)].  [allowed] is the host's
    decision. *)
Definition play (allowed : bool) (a : Audio) : Audio :=
  if allowed then mkAudio false (currentTime a) else a.

(** [const SOUNDS = new Map<string, HTMLAudioElement>()] *)
Definition SOUNDS : JsMap Audio := [].

(** [isSoundPlaying(src)]: [!(SOUNDS.get(src)?.paused ?? true)]. *)
Definition isSoundPlaying (src : string) (s : JsMap Audio) : bool :=
  negb (match js_get src s with
        | Some a => paused a
        | None => true
        end).

(** [playSound(src)] *)
Definition playSound (src : string) (allowed : bool) (s : JsMap Audio)
  : JsMap Audio :=
  let s1 := if negb (js_has src s) then js_set src new_Audio s else s in
  if negb (isSoundPlaying src s1) then
    match js_get src s1 with
    | Some a => js_set src (play allowed a) s1
    | None => s1
    end
  else s1.

(** [stopSound(src)]: [sound.pause(); sound.currentTime = 0]. *)
Definition stopSound (src : string) (s : JsMap Audio) : JsMap Audio :=
  match js_get src s with
  | Some a => js_set src (mkAudio true 0) s
  | None => s
  end.

(** The host's end of playback: the element becomes paused. *)
Definition playback_ended (src : string) (s : JsMap Audio) : JsMap Audio :=
  match js_get src s with
  | Some a => js_set src (mkAudio true (currentTime a)) s
  | None => s
  end.

(** What happens to the sounds, in order. *)
Inductive SoundOp : Set :=
| PlaySound (src : string) (allowed : bool)
| StopSound (src : string)
| PlaybackEnded (src : string).

Definition sound_step (s : JsMap Audio) (o : SoundOp) : JsMap Audio :=
  match o with
  | PlaySound src allowed => playSound src allowed s
  | StopSound src => stopSound src s
  | PlaybackEnded src => playback_ended src s
  end.

Definition sound_steps (os : list SoundOp) (s : JsMap Audio) : JsMap Audio :=
  fold_left sound_step os s.

(** [playSound(src)] occurs in the sequence. *)
Definition played (src : string) (os : list SoundOp) : Prop :=
  exists allowed, In (PlaySound src allowed) os.

(* ------------------------------------------------------------------ *)
(** ** Graphics: sprites and text *)

(** [a + b], on the pixel counts of the drawing code, where the exact
    sum is the binary64 one. *)
Definition nadd (a b : number) : number :=
  match a, b with
  | NaN, _ => NaN
  | _, NaN => NaN
  | Fin x, Fin y => Fin (x + y)
  | PInf, NInf => NaN
  | NInf, PInf => NaN
  | PInf, _ => PInf
  | NInf, _ => NInf
  | Fin _, PInf => PInf
  | Fin _, NInf => NInf
  | NZ, NZ => NZ
  | NZ, _ => b
  | Fin _, NZ => a
  end.

(** [a * b], likewise.  A product of finite values that is zero is given
    as the positive zero: the sign of a zero coordinate does not show in
    what [drawImage] draws. *)
Definition nmul (a b : number) : number :=
  match a, b with
  | NaN, _ => NaN
  | _, NaN => NaN
  | Fin x, Fin y => Fin (x * y)
  | Fin x, PInf =>
      if Qeq_bool x 0 then NaN else if Qlt_bool 0 x then PInf else NInf
  | Fin x, NInf =>
      if Qeq_bool x 0 then NaN else if Qlt_bool 0 x then NInf else PInf
  | PInf, Fin y =>
      if Qeq_bool y 0 then NaN else if Qlt_bool 0 y then PInf else NInf
  | NInf, Fin y =>
      if Qeq_bool y 0 then NaN else if Qlt_bool 0 y then NInf else PInf
  | PInf, PInf => PInf
  | NInf, NInf => PInf
  | PInf, NInf => NInf
  | NInf, PInf => NInf
  | NZ, PInf => NaN
  | NZ, NInf => NaN
  | PInf, NZ => NaN
  | NInf, NZ => NaN
  | NZ, NZ => Fin 0
  | NZ, Fin y => if Qlt_bool y 0 then Fin 0 else NZ
  | Fin x, NZ => if Qlt_bool x 0 then Fin 0 else NZ
  end.

(** [Math.floor(a)] *)
Definition nfloor (a : number) : number :=
  match a with
  | Fin x => Fin (inject_Z (Qfloor x))
  | _ => a
  end.

(** [interface Rectangle] *)
Module Rectangle.
Record t : Set := mk { x : number; y : number; width : number; height : number }.
End Rectangle.

(** An [HTMLImageElement]: which object it is, and its [src]. *)
Record Image : Set := mkImage {
  img_id : nat;
  img_src : string
}.

(** [interface Font] *)
Record Font : Set := mkFont {
  data : Image;
  size : Vector2.t
}.

(** The two caches [FONTS] and [SPRITES], and the number of images made
    so far. *)
Record Assets : Type := mkAssets {
  FONTS : JsMap Font;
  SPRITES : JsMap Image;
  next_image : nat
}.

Definition no_assets : Assets := mkAssets [] [] 0.

(** One call [GFX.drawImage(image, sx, sy, sw, sh, dx, dy, dw, dh)]. *)
Record DrawImage : Set := mkDrawImage {
  di_image : Image;
  di_sx : number; di_sy : number; di_sw : number; di_sh : number;
  di_dx : number; di_dy : number; di_dw : number; di_dh : number
}.

(** [drawSprite(src, rect, pos)]: the caches afterwards and the call of
    [drawImage] it makes; [None] stands for the [TypeError] of drawing
    [SPRITES.get(src)!] when that is undefined. *)
Definition drawSprite (src : string) (rect : Rectangle.t) (pos : Vector2.t)
    (a : Assets) : option (Assets * DrawImage) :=
  let a1 :=
    if negb (js_has src (SPRITES a)) then
      match js_get src (FONTS a) with
      | Some font =>
          mkAssets (FONTS a) (js_set src (data font) (SPRITES a))
                   (next_image a)
      | None =>
          mkAssets (FONTS a)
                   (js_set src (mkImage (next_image a) src) (SPRITES a))
                   (S (next_image a))
      end
    else a in
  match js_get src (SPRITES a1) with
  | Some img =>
      Some (a1,
            mkDrawImage img
              (Rectangle.x rect) (Rectangle.y rect)
              (Rectangle.width rect) (Rectangle.height rect)
              (nfloor (Vector2.x pos)) (nfloor (Vector2.y pos))
              (Rectangle.width rect) (Rectangle.height rect))
  | None => None
  end.

(** [char.charCodeAt(0)] for [char] one element of [for (const char of
    text)], given as its code point: a code point above the basic plane
    is two code units, the first one a high surrogate. *)
Definition charCodeAt0 (char : Z) : Z :=
  if (char <? 65536)%Z then char
  else (55296 + Z.shiftr (char - 65536) 10)%Z.

(** The column [i % cols] and the row [Math.floor(i / cols)] of a
    character in the font sheet, with [i = char.charCodeAt(0) - 32] and
    [cols = 16]. *)
Definition glyph_cell (char : Z) : Z * Z :=
  let i := (charCodeAt0 char - 32)%Z in
  (Z.rem i 16, (i / 16)%Z).

(** The loop of [drawText] over the code points of [text]: the [rect]
    and [pos] of each call of [drawSprite], in order.  [cursorX] and
    [cursorY] are the loop's variables; [lineHeight] is 1.5. *)
Fixpoint text_loop (font_size pos : Vector2.t) (cursorX cursorY : number)
    (text : list Z) : list (Rectangle.t * Vector2.t) :=
  match text with
  | [] => []
  | char :: rest =>
      let x := fst (glyph_cell char) in
      let y := snd (glyph_cell char) in
      let cX := if (char =? 10)%Z then Fin 0 else cursorX in
      let cY := if (char =? 10)%Z
                then nadd cursorY (nmul (Vector2.y font_size) (Fin (3 # 2)))
                else cursorY in
      (Rectangle.mk (nmul (Fin (inject_Z x)) (Vector2.x font_size))
                    (nmul (Fin (inject_Z y)) (Vector2.y font_size))
                    (Vector2.x font_size) (Vector2.y font_size),
       Vector2.mk (nadd (nfloor (Vector2.x pos)) cX)
                  (nadd (nfloor (Vector2.y pos)) cY))
      :: text_loop font_size pos (nadd cX (Vector2.x font_size)) cY rest
  end.

(** The calls of [drawSprite] one after the other. *)
Fixpoint drawSprites (src : string) (args : list (Rectangle.t * Vector2.t))
    (a : Assets) : option (Assets * list DrawImage) :=
  match args with
  | [] => Some (a, [])
  | (rect, pos) :: rest =>
      match drawSprite src rect pos a with
      | None => None
      | Some (a1, d) =>
          match drawSprites src rest a1 with
          | None => None
          | Some (a2, ds) => Some (a2, d :: ds)
          end
      end
  end.

(** [interface Color] *)
Module Color.
Record t : Set := mk { r : number; g : number; b : number; a : number }.
End Color.

(** [rgba(r, g, b, a)] and the constant [WHITE]. *)
Definition rgba (r g b a : number) : Color.t := Color.mk r g b a.

Definition WHITE : Color.t := rgba (Fin 255) (Fin 255) (Fin 255) (Fin 255).

(** [a !== b] on numbers: NaN differs from every number, itself
    included; the two zeros do not differ. *)
Definition nneq (a b : number) : bool :=
  match a, b with
  | NaN, _ => true
  | _, NaN => true
  | Fin x, Fin y => negb (Qeq_bool x y)
  | Fin x, NZ => negb (Qeq_bool x 0)
  | NZ, Fin y => negb (Qeq_bool y 0)
  | NZ, NZ => false
  | PInf, PInf => false
  | NInf, NInf => false
  | _, _ => true
  end.

(** [r !== 255 || g !== 255 || b !== 255 || a !== 255] *)
Definition needsMask (color : Color.t) : bool :=
  nneq (Color.r color) (Fin 255) || nneq (Color.g color) (Fin 255)
  || nneq (Color.b color) (Fin 255) || nneq (Color.a color) (Fin 255).

(** A [CanvasRenderingContext2D] with its canvas: which one it is. *)
Record Context : Set := mkContext { ctx_id : nat }.

(** What [drawText] does with a context [c]:
    [document.createElement('canvas').getContext('2d')] gave [c];
    [c.imageSmoothingEnabled = v];
    [c.canvas.width = from.canvas.width], and the same for the height;
    the [c.drawImage(image, ...)] of [drawSprite];
    [c.globalCompositeOperation = op];
    [c.fillStyle] set to the string for [rgba(r,g,b,alpha)];
    [c.fillRect(0, 0, c.canvas.width, c.canvas.height)];
    [c.drawImage(from.canvas, dx, dy)]. *)
Inductive GfxOp : Set :=
| CreateContext (c : Context)
| SetImageSmoothing (c : Context) (v : bool)
| CopyWidth (c from : Context)
| CopyHeight (c from : Context)
| DrawImageCall (c : Context) (d : DrawImage)
| SetComposite (c : Context) (op : string)
| SetFillStyle (c : Context) (r g b alpha : number)
| FillAll (c : Context)
| DrawCanvas (c from : Context) (dx dy : number).

(** The module's variables [GFX] and [TXT] ([TXT] has no value until a
    text is drawn with a mask), the two caches, and the number of
    contexts created so far. *)
Record Graphics : Type := mkGraphics {
  GFX : Context;
  TXT : option Context;
  assets : Assets;
  next_context : nat
}.

Section Text.
(** What the host's [split], [URLSearchParams] and [Number] make of a
    font source: the part before the question mark, and the character
    width and height. *)
Variable font_params : string -> string * Vector2.t.

(** The first block of [drawText]: a font that is not in [FONTS] gets a
    new image and its size. *)
Definition register_font (src : string) (a : Assets) : Assets :=
  if negb (js_has src (FONTS a)) then
    mkAssets
      (js_set src
         (mkFont (mkImage (next_image a) (fst (font_params src)))
                 (snd (font_params src)))
         (FONTS a))
      (SPRITES a) (S (next_image a))
  else a.

(** [drawText(src, text, pos, color)]: the module's variables
    afterwards and what was done to the contexts, in order.  For a
    colour other than opaque white the characters are drawn on a new
    offscreen context that stands in for [GFX] during the loop; it is
    then filled with the colour where it is not transparent and drawn on
    the context that [GFX] was, which [GFX] is again.  [None] stands for
    the [TypeError] of reading [FONTS.get(src)!.size] or of a failed
    [drawSprite]. *)
Definition drawText (src : string) (text : list Z) (pos : Vector2.t)
    (color : Color.t) (s : Graphics) : option (Graphics * list GfxOp) :=
  let a1 := register_font src (assets s) in
  match js_get src (FONTS a1) with
  | None => None
  | Some font =>
      let OGX := GFX s in
      let txt := mkContext (next_context s) in
      let s1 :=
        if needsMask color
        then mkGraphics txt (Some txt) a1 (S (next_context s))
        else mkGraphics (GFX s) (TXT s) a1 (next_context s) in
      let swap :=
        if needsMask color
        then [CreateContext txt; SetImageSmoothing txt false;
              CopyWidth txt OGX; CopyHeight txt OGX]
        else [] in
      match drawSprites src
              (text_loop (size font) pos (Fin 0) (Fin 0) text)
              (assets s1) with
      | None => None
      | Some (a2, ds) =>
          let glyphs := map (DrawImageCall (GFX s1)) ds in
          if needsMask color then
            Some (mkGraphics OGX (TXT s1) a2 (next_context s1),
                  swap ++ glyphs ++
                  [SetComposite txt "source-in";
                   SetFillStyle txt (Color.r color) (Color.g color)
                     (Color.b color) (ndiv (Color.a color) (Fin 255));
                   FillAll txt;
                   DrawCanvas OGX txt (Fin 0) (Fin 0)])
          else
            Some (mkGraphics (GFX s1) (TXT s1) a2 (next_context s1),
                  swap ++ glyphs)
      end
  end.
End Text.

(** The call of [drawImage] that [drawSprite] makes with image [img]. *)
Definition sprite_call (img : Image) (rect : Rectangle.t) (pos : Vector2.t)
  : DrawImage :=
  mkDrawImage img
    (Rectangle.x rect) (Rectangle.y rect)
    (Rectangle.width rect) (Rectangle.height rect)
    (nfloor (Vector2.x pos)) (nfloor (Vector2.y pos))
    (Rectangle.width rect) (Rectangle.height rect).

(* ================================================================== *)
(** * Properties *)

(** ** Rationals and numbers *)

Lemma Qlt_bool_iff (x y : Q) : Qlt_bool x y = true <-> x < y.
Proof.
  unfold Qlt_bool. rewrite negb_true_iff.
  split; intro H.
  - apply Qnot_le_lt. intro Hle. apply Qle_bool_iff in Hle. congruence.
  - destruct (Qle_bool y x) eqn:E; [|reflexivity].
    apply Qle_bool_iff in E. exfalso. apply (Qlt_not_le _ _ H E).
Qed.

Lemma Qlt_bool_false_iff (x y : Q) : Qlt_bool x y = false <-> y <= x.
Proof.
  unfold Qlt_bool. rewrite negb_false_iff. apply Qle_bool_iff.
Qed.

Lemma ngt_Fin (a b : Q) : ngt (Fin a) (Fin b) = true <-> b < a.
Proof. apply Qlt_bool_iff. Qed.

Lemma ngt_Fin_false (a b : Q) : ngt (Fin a) (Fin b) = false <-> a <= b.
Proof. apply Qlt_bool_false_iff. Qed.

(** ** Truncation and remainder *)

Lemma Qtrunc_bounds (x : Q) :
  0 <= x -> inject_Z (Qtrunc x) <= x /\ x < inject_Z (Qtrunc x) + 1.
Proof.
  intro Hx. unfold Qtrunc.
  assert (Hq : Z.quot (Qnum x) (Zpos (Qden x)) = Qfloor x).
  { destruct x as [n d]. simpl. apply Z.quot_div_nonneg; [|lia].
    unfold Qle in Hx. simpl in Hx. lia. }
  rewrite Hq. split; [apply Qfloor_le|].
  pose proof (Qlt_floor x) as H. rewrite inject_Z_plus in H. exact H.
Qed.

(** For a dividend that is not negative and a positive divisor the
    remainder lies in [0, b) and differs from the dividend by a whole
    multiple of the divisor. *)
Lemma Qrem_bounds (a b : Q) :
  0 <= a -> 0 < b ->
  0 <= Qrem a b /\ Qrem a b < b /\
  a - Qrem a b == b * inject_Z (Qtrunc (a / b)) /\
  (b < a -> (1 <= Qtrunc (a / b))%Z).
Proof.
  intros Ha Hb.
  assert (Hbn : ~ b == 0) by (intro E; rewrite E in Hb; now apply Qlt_irrefl in Hb).
  assert (Hdiv : 0 <= a / b).
  { apply Qle_shift_div_l; [exact Hb|]. lra. }
  destruct (Qtrunc_bounds (a / b) Hdiv) as [Hlo Hhi].
  pose proof (Qmult_div_r a b Hbn) as Hab.
  set (q := inject_Z (Qtrunc (a / b))) in *.
  assert (H1 : b * q <= a).
  { apply Qle_trans with (b * (a / b)); [now apply Qmult_le_l|].
    rewrite Hab. apply Qle_refl. }
  assert (H2 : a < b * q + b).
  { apply Qle_lt_trans with (b * (a / b)); [rewrite Hab; apply Qle_refl|].
    apply Qlt_le_trans with (b * (q + 1)); [now apply Qmult_lt_l|].
    rewrite Qmult_plus_distr_r, Qmult_1_r. apply Qle_refl. }
  unfold Qrem. fold q.
  repeat split; try lra.
  intro Hlt.
  assert (Hq0 : 0 < q).
  { destruct (Qlt_le_dec 0 q) as [H|H]; [exact H|].
    exfalso. assert (b * q <= 0) by nra. lra. }
  unfold q in Hq0. change 0 with (inject_Z 0) in Hq0.
  rewrite <- Zlt_Qlt in Hq0. lia.
Qed.

Lemma Qeq_bool_pos (p : Q) : 0 < p -> Qeq_bool p 0 = false.
Proof.
  intro Hp. destruct (Qeq_bool p 0) eqn:E; [|reflexivity].
  apply Qeq_bool_iff in E. rewrite E in Hp. now apply Qlt_irrefl in Hp.
Qed.

(** ** Rounding to binary64 *)

Section Rounding.
Local Open Scope Z_scope.

(** [round_half_even] with the quotient and the remainder named. *)
Lemma round_half_even_eq (N D : Z) :
  round_half_even N D =
  match (2 * (N mod D) ?= D) with
  | Lt => N / D
  | Eq => if Z.even (N / D) then N / D else N / D + 1
  | Gt => N / D + 1
  end.
Proof.
  unfold round_half_even, Z.div, Z.modulo.
  destruct (Z.div_eucl N D). reflexivity.
Qed.

Lemma round_half_even_spec (N D : Z) :
  0 < D ->
  (2 * round_half_even N D - 1) * D <= 2 * N
    <= (2 * round_half_even N D + 1) * D /\
  (2 * N = (2 * round_half_even N D + 1) * D ->
   Z.even (round_half_even N D) = true) /\
  (2 * N = (2 * round_half_even N D - 1) * D ->
   Z.even (round_half_even N D) = true).
Proof.
  intros HD. rewrite round_half_even_eq.
  pose proof (Z.div_mod N D ltac:(lia)) as E.
  pose proof (Z.mod_pos_bound N D HD) as B.
  set (q := N / D) in *. set (r := N mod D) in *.
  destruct (Z.compare_spec (2 * r) D) as [H|H|H].
  - destruct (Z.even q) eqn:Ev.
    + split; [nia|]. split; [auto|]. intros; nia.
    + split; [nia|]. split; [intros; nia|].
      intros _. rewrite Z.even_add, Ev. reflexivity.
  - split; [nia|]. split; intros; nia.
  - split; [nia|]. split; intros; nia.
Qed.

Lemma round_half_even_mono (N1 D1 N2 D2 : Z) :
  0 < D1 -> 0 < D2 -> N1 * D2 <= N2 * D1 ->
  round_half_even N1 D1 <= round_half_even N2 D2.
Proof.
  intros H1 H2 Hle.
  destruct (round_half_even_spec N1 D1 H1) as ([L1 _] & _ & E1).
  destruct (round_half_even_spec N2 D2 H2) as ([_ U2] & E2 & _).
  set (k1 := round_half_even N1 D1) in *.
  set (k2 := round_half_even N2 D2) in *.
  destruct (Z_le_gt_dec k1 k2) as [|Hgt]; [assumption|exfalso].
  assert (Hc : (2 * k1 - 1) * (D1 * D2) <= (2 * k2 + 1) * (D1 * D2)) by nia.
  assert (Hk : k1 = k2 + 1) by nia.
  assert (A1 : 2 * N1 = (2 * k1 - 1) * D1) by nia.
  assert (A2 : 2 * N2 = (2 * k2 + 1) * D2) by nia.
  specialize (E1 A1). specialize (E2 A2).
  rewrite Hk, Z.even_add, E2 in E1. discriminate.
Qed.

Lemma round_half_even_exact (k D : Z) :
  0 < D -> round_half_even (k * D) D = k.
Proof.
  intros HD. rewrite round_half_even_eq.
  rewrite Z.mod_mul, Z.div_mul by lia.
  destruct (Z.compare_spec (2 * 0) D); lia.
Qed.

Lemma div_cross_le (N1 D1 N2 D2 : Z) :
  0 < D1 -> 0 < D2 -> N1 * D2 <= N2 * D1 -> N1 / D1 <= N2 / D2.
Proof.
  intros H1 H2 Hle.
  apply Z.div_le_lower_bound; [assumption|].
  pose proof (Z.mul_div_le N1 D1 H1). nia.
Qed.

Lemma RN_int_nonneg (n d : positive) : 0 <= RN_int n d.
Proof.
  unfold RN_int.
  set (N := Zpos n * 2 ^ 1074).
  set (e := Z.max (Z.log2 (N / Zpos d) - 52) 0).
  assert (He : 0 < 2 ^ e) by (apply Z.pow_pos_nonneg; lia).
  assert (HN : 0 <= N)
    by (unfold N; apply Z.mul_nonneg_nonneg; [lia|apply Z.pow_nonneg; lia]).
  apply Z.mul_nonneg_nonneg; [|lia].
  rewrite <- (round_half_even_exact 0 (Zpos d * 2 ^ e)) by nia.
  apply round_half_even_mono; nia.
Qed.

Lemma RN_int_mono (n1 d1 n2 d2 : positive) :
  Zpos n1 * Zpos d2 <= Zpos n2 * Zpos d1 ->
  RN_int n1 d1 <= RN_int n2 d2.
Proof.
  intros Hle. unfold RN_int.
  assert (HP : 0 < 2 ^ 1074) by (apply Z.pow_pos_nonneg; lia).
  set (P := 2 ^ 1074) in *.
  set (N1 := Zpos n1 * P). set (N2 := Zpos n2 * P).
  assert (HN : N1 * Zpos d2 <= N2 * Zpos d1) by (unfold N1, N2; nia).
  assert (Ha : N1 / Zpos d1 <= N2 / Zpos d2) by (apply div_cross_le; lia).
  set (a1 := N1 / Zpos d1) in *. set (a2 := N2 / Zpos d2) in *.
  pose proof (Z.log2_le_mono _ _ Ha) as Hl.
  set (e1 := Z.max (Z.log2 a1 - 52) 0).
  set (e2 := Z.max (Z.log2 a2 - 52) 0).
  assert (He1 : 0 < 2 ^ e1) by (apply Z.pow_pos_nonneg; lia).
  assert (He2 : 0 < 2 ^ e2) by (apply Z.pow_pos_nonneg; lia).
  destruct (Z.eq_dec e1 e2) as [Heq|Hne].
  - rewrite <- Heq. apply Z.mul_le_mono_nonneg_r; [lia|].
    apply round_half_even_mono; nia.
  - assert (Hlt : e1 < e2) by lia.
    set (K := Z.log2 a2).
    assert (HK : e2 = K - 52) by lia.
    assert (Ha2 : 0 < a2).
    { destruct (Z_lt_le_dec 0 a2); [assumption|].
      pose proof (Z.log2_nonpos a2 ltac:(lia)). lia. }
    assert (HlowK : 2 ^ K <= a2) by (apply Z.log2_spec; assumption).
    assert (HupK : a1 < 2 ^ K).
    { destruct (Z_lt_le_dec 0 a1) as [Hp|Hn].
      - destruct (Z.log2_spec a1 Hp) as [_ Hu].
        eapply Z.lt_le_trans; [exact Hu|].
        apply Z.pow_le_mono_r; lia.
      - pose proof (Z.pow_pos_nonneg 2 K ltac:(lia) ltac:(lia)). lia. }
    assert (HKpos : 0 < 2 ^ K) by (apply Z.pow_pos_nonneg; lia).
    assert (B2 : 2 ^ K * Zpos d2 <= N2).
    { pose proof (Z.mul_div_le N2 (Zpos d2) ltac:(lia)). fold a2 in H. nia. }
    assert (B1 : N1 <= 2 ^ K * Zpos d1).
    { destruct (Z_le_gt_dec N1 (2 ^ K * Zpos d1)); [assumption|].
      assert (2 ^ K <= a1); [|lia].
      apply Z.div_le_lower_bound; lia. }
    assert (S1 : 2 ^ K = 2 ^ (K - e1) * 2 ^ e1)
      by (rewrite <- Z.pow_add_r by lia; f_equal; lia).
    assert (S2 : 2 ^ K = 2 ^ (K - e2) * 2 ^ e2)
      by (rewrite <- Z.pow_add_r by lia; f_equal; lia).
    apply Z.le_trans with (2 ^ K).
    + rewrite S1 at 1. apply Z.mul_le_mono_nonneg_r; [lia|].
      rewrite <- (round_half_even_exact (2 ^ (K - e1)) (Zpos d1 * 2 ^ e1))
        by (apply Z.mul_pos_pos; lia).
      assert (HD : 0 < Zpos d1 * 2 ^ e1) by (apply Z.mul_pos_pos; lia).
      apply round_half_even_mono; [assumption..|].
      apply Z.mul_le_mono_nonneg_r; [lia|].
      replace (2 ^ (K - e1) * (Zpos d1 * 2 ^ e1)) with (2 ^ K * Zpos d1)
        by (rewrite S1; ring).
      exact B1.
    + rewrite S2 at 1. apply Z.mul_le_mono_nonneg_r; [lia|].
      rewrite <- (round_half_even_exact (2 ^ (K - e2)) (Zpos d2 * 2 ^ e2))
        by (apply Z.mul_pos_pos; lia).
      assert (HD : 0 < Zpos d2 * 2 ^ e2) by (apply Z.mul_pos_pos; lia).
      apply round_half_even_mono; [assumption..|].
      apply Z.mul_le_mono_nonneg_r; [lia|].
      replace (2 ^ (K - e2) * (Zpos d2 * 2 ^ e2)) with (2 ^ K * Zpos d2)
        by (rewrite S2; ring).
      exact B2.
Qed.

End Rounding.

Lemma Qlt_bool_compat (x x' y y' : Q) :
  x == x' -> y == y' -> Qlt_bool x y = Qlt_bool x' y'.
Proof.
  intros Hx Hy.
  destruct (Qlt_bool x' y') eqn:E.
  - apply Qlt_bool_iff. apply Qlt_bool_iff in E. now rewrite Hx, Hy.
  - apply Qlt_bool_false_iff. apply Qlt_bool_false_iff in E.
    now rewrite Hx, Hy.
Qed.

Lemma RN_compat (x y : Q) : x == y -> RN x = RN y.
Proof.
  intro H. unfold RN. now rewrite (Qred_complete x y H).
Qed.

(** The three shapes of a rounded magnitude. *)
Lemma RN_pos_cases (neg : bool) (n d : positive) :
  ((2 ^ 2098 <= RN_int n d)%Z /\
   RN_pos neg n d = (if neg then NInf else PInf)) \/
  (RN_int n d = 0%Z /\
   RN_pos neg n d = (if neg then NZ else Fin 0)) \/
  ((0 < RN_int n d < 2 ^ 2098)%Z /\
   RN_pos neg n d =
     Fin (Qred ((if neg then (- RN_int n d)%Z else RN_int n d) # 2 ^ 1074))).
Proof.
  unfold RN_pos. pose proof (RN_int_nonneg n d) as H0.
  destruct (Z.leb_spec (2 ^ 2098) (RN_int n d)) as [H|H]; [left; now split|].
  right. destruct (Z.eqb_spec (RN_int n d) 0) as [E|E]; [left; now split|].
  right. split; [lia|reflexivity].
Qed.

Lemma RN_not_NaN (x : Q) : RN x <> NaN.
Proof.
  unfold RN. destruct (Qnum (Qred x)) as [|n|n]; [discriminate| |].
  - destruct (RN_pos_cases false n (Qden (Qred x)))
      as [[_ ->]|[[_ ->]|[_ ->]]]; discriminate.
  - destruct (RN_pos_cases true n (Qden (Qred x)))
      as [[_ ->]|[[_ ->]|[_ ->]]]; discriminate.
Qed.

Lemma Qred_units_le (a b : Z) (p : positive) :
  (a <= b)%Z -> Qred (a # p) <= Qred (b # p).
Proof.
  intro H. rewrite !Qred_correct. unfold Qle. simpl.
  apply Z.mul_le_mono_nonneg_r; lia.
Qed.

Lemma Qred_units_nonneg (a : Z) (p : positive) :
  (0 <= a)%Z -> 0 <= Qred (a # p).
Proof.
  intro H. rewrite Qred_correct. unfold Qle. simpl. lia.
Qed.

Lemma Qred_units_nonpos (a : Z) (p : positive) :
  (a <= 0)%Z -> Qred (a # p) <= 0.
Proof.
  intro H. rewrite Qred_correct. unfold Qle. simpl. lia.
Qed.

(** Rounding is monotone. *)
Lemma RN_mono (x y : Q) : x <= y -> ngt (RN x) (RN y) = false.
Proof.
  intro Hle. rewrite <- (Qred_correct x), <- (Qred_correct y) in Hle.
  unfold RN.
  destruct (Qred x) as [nx dx], (Qred y) as [ny dy]. simpl Qnum. simpl Qden.
  unfold Qle in Hle. simpl in Hle.
  destruct nx as [|nx|nx], ny as [|ny|ny]; try lia.
  - reflexivity.
  - destruct (RN_pos_cases false ny dy) as [[_ ->]|[[_ ->]|[H ->]]];
      try reflexivity.
    apply ngt_Fin_false. apply Qred_units_nonneg. lia.
  - pose proof (RN_int_mono nx dx ny dy Hle) as Hm.
    destruct (RN_pos_cases false nx dx) as [[Hx ->]|[[Hx ->]|[Hx ->]]];
      destruct (RN_pos_cases false ny dy) as [[Hy ->]|[[Hy ->]|[Hy ->]]];
      try reflexivity; try lia.
    + apply ngt_Fin_false. apply Qred_units_nonneg. lia.
    + apply ngt_Fin_false. apply Qred_units_le. lia.
  - destruct (RN_pos_cases true nx dx) as [[_ ->]|[[_ ->]|[H ->]]];
      try reflexivity.
    apply ngt_Fin_false. apply Qred_units_nonpos. lia.
  - destruct (RN_pos_cases true nx dx) as [[Hx ->]|[[Hx ->]|[Hx ->]]];
      destruct (RN_pos_cases false ny dy) as [[Hy ->]|[[Hy ->]|[Hy ->]]];
      try reflexivity.
    + unfold ngt. apply Qlt_bool_false_iff. apply Qred_units_nonneg. lia.
    + apply ngt_Fin_false. apply Qred_units_nonpos. lia.
    + apply ngt_Fin_false. apply Qred_units_le. lia.
  - assert (Hc : (Zpos ny * Zpos dx <= Zpos nx * Zpos dy)%Z) by lia.
    pose proof (RN_int_mono ny dy nx dx Hc) as Hm.
    destruct (RN_pos_cases true nx dx) as [[Hx ->]|[[Hx ->]|[Hx ->]]];
      destruct (RN_pos_cases true ny dy) as [[Hy ->]|[[Hy ->]|[Hy ->]]];
      try reflexivity; try lia.
    + unfold ngt. apply Qlt_bool_false_iff. apply Qred_units_nonpos. lia.
    + apply ngt_Fin_false. apply Qred_units_le. lia.
Qed.

(** Inside one binade the rounded magnitude is the nearest multiple of
    the binade's spacing. *)
Lemma RN_int_binade (n d : positive) (E : Z) :
  (0 <= E)%Z ->
  (2 ^ (52 + E) * Zpos d <= Zpos n * 2 ^ 1074 < 2 ^ (53 + E) * Zpos d)%Z ->
  RN_int n d
  = (round_half_even (Zpos n * 2 ^ 1074) (Zpos d * 2 ^ E) * 2 ^ E)%Z.
Proof.
  intros HE [Hlo Hhi]. unfold RN_int.
  set (N := (Zpos n * 2 ^ 1074)%Z) in *.
  assert (Hl : Z.log2 (N / Zpos d) = (52 + E)%Z).
  { apply Z.log2_unique; [lia|]. split.
    - apply Z.div_le_lower_bound; lia.
    - apply Z.div_lt_upper_bound; [lia|].
      replace (Z.succ (52 + E)) with (53 + E)%Z by lia. lia. }
  rewrite Hl. replace (Z.max (52 + E - 52) 0) with E by lia. reflexivity.
Qed.

Lemma ONE_FRAME_eq :
  ONE_FRAME = Fin (4691061961859793 # 281474976710656).
Proof. vm_compute. reflexivity. Qed.

Lemma ONE_FRAME_double :
  RN (4691061961859793 # 281474976710656)
  = Fin (4691061961859793 # 281474976710656).
Proof. vm_compute. reflexivity. Qed.

Lemma PRESS_LIMIT_rounds_down :
  RN PRESS_LIMIT = Fin (293191372616237 # 17592186044416).
Proof. vm_compute. reflexivity. Qed.

(** The comparison with the literal, on the exact value that is rounded. *)
Lemma ONE_FRAME_threshold (x : Q) :
  ngt ONE_FRAME (RN x) = true <-> x <= PRESS_LIMIT.
Proof.
  rewrite ONE_FRAME_eq. split.
  - intro H. apply Qnot_lt_le. intro Hlt.
    assert (F : ngt (Fin (4691061961859793 # 281474976710656)) (RN x) = false);
      [|congruence].
    clear H.
    destruct (Qlt_le_dec x (4691061961859793 # 281474976710656)) as [Hx|Hx].
    + rewrite <- (Qred_correct x) in Hlt, Hx. unfold RN.
      destruct (Qred x) as [nx d]. simpl Qnum. simpl Qden.
      unfold Qlt, PRESS_LIMIT in Hlt, Hx. simpl in Hlt, Hx.
      destruct nx as [|n|n]; try lia.
      assert (HP : (2 ^ 1074 = 2 ^ 1026 * 281474976710656)%Z) by reflexivity.
      assert (H78 : (2 ^ 1078 = 2 ^ 1026 * 4503599627370496)%Z)
        by reflexivity.
      assert (H79 : (2 ^ 1079 = 2 ^ 1026 * 9007199254740992)%Z)
        by reflexivity.
      assert (HT : (0 < 2 ^ 1026)%Z) by reflexivity.
      pose proof (RN_int_binade n d 1026 ltac:(lia)) as Hb.
      change (52 + 1026)%Z with 1078%Z in Hb.
      change (53 + 1026)%Z with 1079%Z in Hb.
      pose proof (round_half_even_spec (Zpos n * 2 ^ 1074)
                    (Zpos d * 2 ^ 1026) ltac:(lia)) as ([_ Hu] & _).
      set (m := round_half_even (Zpos n * 2 ^ 1074) (Zpos d * 2 ^ 1026))
        in *.
      destruct (RN_pos_cases false n d) as [[_ ->]|[[Hz ->]|[_ ->]]].
      * reflexivity.
      * exfalso. rewrite Hb in Hz by (rewrite HP, H78, H79; nia).
        rewrite HP in Hu. nia.
      * apply ngt_Fin_false. rewrite Qred_correct.
        unfold Qle. cbn [Qnum Qden]. rewrite Pos2Z.inj_pow.
        rewrite Hb by (rewrite HP, H78, H79; nia).
        change (Z.pos 1074) with 1074%Z. change (Z.pos 2) with 2%Z.
        rewrite HP in Hu |- *. nia.
    + pose proof (RN_mono _ _ Hx) as Hm.
      now rewrite ONE_FRAME_double in Hm.
  - intro Hx. pose proof (RN_mono _ _ Hx) as Hm.
    rewrite PRESS_LIMIT_rounds_down in Hm.
    pose proof (RN_not_NaN x) as Hn.
    destruct (RN x) as [r| | | |]; try reflexivity; try discriminate;
      try congruence.
    apply ngt_Fin_false in Hm. unfold ngt. apply Qlt_bool_iff.
    eapply Qle_lt_trans; [exact Hm|]. reflexivity.
Qed.

(** ** Agreement with the kernel's binary64 arithmetic *)

Module Binary64Facts.
Import PrimFloat.
#[local] Set Warnings "-inexact-float".

(** The subtraction and the division of the model give what the kernel's
    binary64 subtraction and division give: on the clock readings and
    intervals used in this file, on ties, on subnormal values, on
    overflow and on the zeros. *)
Lemma binary64_agreement :
  forallb (fun xy => Binary64.sub_agrees (fst xy) (snd xy))
    [(16.866, 0.2); (10.3, 0.3); (50.1, 33.333333333333336);
     (50.1, 0.1); (0.9, 0.1); (0.1, 0.3); (1, 0x1p-53); (1, 0x1.8p-53);
     (0x1p53, -1); (0x1.fffffffffffffp1023, -0x1.fffffffffffffp1023);
     (-0x1.fffffffffffffp1023, 0x1p970); (0x1p-1074, 0x1p-1073);
     (0x1.8p-1022, 0x1p-1022); (0, 0); (-0, 0); (0, -0); (-0, -0);
     (5, 0); (5, -0); (-0, 5); (0, 5); (infinity, infinity);
     (infinity, 1); (1, infinity); (nan, 1)]%float = true /\
  forallb (fun xy => Binary64.div_agrees (fst xy) (snd xy))
    [(1000, 60); (1000, 30); (1000, 100); (1000, 144); (255, 255);
     (128, 255); (1, 3); (2, 3); (1, 10); (0x1p-1074, 2);
     (0x1.8p-1073, 2); (-0x1p-1074, 2); (0x1p-1074, 3);
     (0x1.fffffffffffffp1023, 0.5); (1, 0x1p-1074); (1000, 0);
     (1000, -0); (-1000, 0); (0, 0); (0, -5); (-0, 5); (0, infinity);
     (infinity, -0); (infinity, infinity); (5, neg_infinity);
     (nan, 1)]%float = true.
Proof. vm_compute. split; reflexivity. Qed.
End Binary64Facts.

(** ** The input state tracker *)

Lemma get_set_same (s : ButtonState) (b : Button.t) (v : Q) :
  get (set s b v) b = v.
Proof. destruct s, b; reflexivity. Qed.

Lemma get_set_other (s : ButtonState) (b b' : Button.t) (v : Q) :
  b' <> b -> get (set s b v) b' = get s b'.
Proof. destruct s, b, b'; intro H; try reflexivity; congruence. Qed.

Lemma button_truthy_all (b : Button.t) : button_truthy b = true.
Proof. destruct b; reflexivity. Qed.

Lemma onkeyup_mapped (k : string) (b : Button.t) (s : ButtonState) :
  keyToButton k = Some b -> onkeyup k s = set s b 0.
Proof.
  intro H. unfold onkeyup. rewrite H, button_truthy_all. reflexivity.
Qed.

Lemma onkeydown_mapped (k : string) (b : Button.t) (now : Q)
    (s : ButtonState) :
  keyToButton k = Some b ->
  onkeydown k now s = if Qeq_bool (get s b) 0 then set s b now else s.
Proof.
  intro H. unfold onkeydown. rewrite H, button_truthy_all. reflexivity.
Qed.

Lemma onkeydown_released (k : string) (b : Button.t) (now : Q)
    (s : ButtonState) :
  keyToButton k = Some b -> get s b == 0 -> onkeydown k now s = set s b now.
Proof.
  intros H H0. rewrite (onkeydown_mapped k b now s H).
  apply Qeq_bool_iff in H0. rewrite H0. reflexivity.
Qed.

Lemma onkeydown_held (k : string) (b : Button.t) (now : Q)
    (s : ButtonState) :
  keyToButton k = Some b -> ~ get s b == 0 -> onkeydown k now s = s.
Proof.
  intros H H0. rewrite (onkeydown_mapped k b now s H).
  destruct (Qeq_bool (get s b) 0) eqn:E; [|reflexivity].
  apply Qeq_bool_iff in E. contradiction.
Qed.

(** Every button has a key. *)
Lemma every_button_mapped (b : Button.t) : exists k, keyToButton k = Some b.
Proof.
  destruct b;
    [ exists "z" | exists "x" | exists "ArrowUp" | exists "ArrowDown"
    | exists "ArrowLeft" | exists "ArrowRight" | exists "Enter"
    | exists " " ]; reflexivity.
Qed.

(** C4.  For every key [k] mapped to a button [b], every state and every
    sequence of clock readings: a key-down while the stored timestamp of
    [b] is zero stores the clock reading in the slot of [b] and touches no
    other slot; a key-down while it is not zero leaves the whole state as
    it is, and so does any number of repeated key-downs; a key-up sets the
    slot of [b] to 0 whatever it held, and touches no other slot. *)
Theorem C4_keydown_keyup (k : string) (b : Button.t) (s : ButtonState)
    (now : Q) (H : keyToButton k = Some b) :
  (get s b == 0 ->
     get (onkeydown k now s) b = now /\
     forall b', b' <> b -> get (onkeydown k now s) b' = get s b') /\
  (~ get s b == 0 ->
     onkeydown k now s = s /\
     forall nows : list Q,
       handle_all (map (KeyDown k) nows) s = s) /\
  (get (onkeyup k s) b = 0 /\
   forall b', b' <> b -> get (onkeyup k s) b' = get s b').
Proof.
  repeat split.
  - rewrite (onkeydown_released k b now s H H0). apply get_set_same.
  - intros b' Hb'. rewrite (onkeydown_released k b now s H H0).
    now apply get_set_other.
  - now apply (onkeydown_held k b).
  - intro nows. induction nows as [|t ts IH]; [reflexivity|].
    unfold handle_all in *. simpl.
    rewrite (onkeydown_held k b t s H H0). exact IH.
  - rewrite (onkeyup_mapped k b s H). apply get_set_same.
  - intros b' Hb'. rewrite (onkeyup_mapped k b s H).
    now apply get_set_other.
Qed.

Lemma C4_keydown_keyup_witness :
  keyToButton "z" = Some Button.A /\
  get (onkeydown "z" 5 BUTTONS) Button.A = 5 /\
  onkeydown "z" 9 (onkeydown "z" 5 BUTTONS) = onkeydown "z" 5 BUTTONS /\
  get (onkeyup "z" (onkeydown "z" 5 BUTTONS)) Button.A = 0.
Proof.
  split; [reflexivity|].
  split; [|split].
  - apply (C4_keydown_keyup "z" Button.A BUTTONS 5 eq_refl). reflexivity.
  - apply (C4_keydown_keyup "z" Button.A (onkeydown "z" 5 BUTTONS) 9 eq_refl).
    intro E. vm_compute in E. discriminate.
  - apply (C4_keydown_keyup "z" Button.A (onkeydown "z" 5 BUTTONS) 5 eq_refl).
Defined.

Lemma ngt_compat_r (a : number) (x y : Q) :
  x == y -> ngt a (Fin x) = ngt a (Fin y).
Proof.
  intro H. destruct a; try reflexivity; unfold ngt;
    apply Qlt_bool_compat; (exact H || reflexivity).
Qed.

Lemma ngt_compat_l (a : number) (x y : Q) :
  x == y -> ngt (Fin x) a = ngt (Fin y) a.
Proof.
  intro H. destruct a; try reflexivity; unfold ngt;
    apply Qlt_bool_compat; (exact H || reflexivity).
Qed.

(** Rounding does not cross a binary64 value. *)
Lemma RN_le_double (x p : Q) :
  is_double p -> x <= p -> ngt (RN x) (Fin p) = false.
Proof.
  intros (r & Hr & Hrp) Hle.
  rewrite <- (ngt_compat_r _ r p Hrp), <- Hr. now apply RN_mono.
Qed.

Lemma RN_ge_double (x p : Q) :
  is_double p -> p <= x -> ngt (Fin p) (RN x) = false.
Proof.
  intros (r & Hr & Hrp) Hle.
  rewrite <- (ngt_compat_l _ r p Hrp), <- Hr. now apply RN_mono.
Qed.

(** No binary64 value lies between [PRESS_LIMIT] and the value of the
    literal. *)
Lemma double_below_ONE_FRAME (x : Q) :
  is_double x ->
  (ngt ONE_FRAME (Fin x) = true <-> x <= PRESS_LIMIT).
Proof.
  intros (r & Hr & Hrx).
  rewrite <- (ngt_compat_r _ r x Hrx), <- Hr. apply ONE_FRAME_threshold.
Qed.

(** The query on a slot that holds zero and on one that does not. *)
Lemma isButtonPressed_released (b : Button.t) (now : Q) (s : ButtonState) :
  get s b == 0 -> isButtonPressed b now s = ngt ONE_FRAME (Fin now).
Proof.
  intro H0. unfold isButtonPressed, nsub.
  apply Qeq_bool_iff in H0. now rewrite H0.
Qed.

Lemma isButtonPressed_held (b : Button.t) (now : Q) (s : ButtonState) :
  ~ get s b == 0 ->
  isButtonPressed b now s = ngt ONE_FRAME (RN (now - get s b)).
Proof.
  intro Hne. unfold isButtonPressed, nsub.
  destruct (Qeq_bool (get s b) 0) eqn:E; [|reflexivity].
  apply Qeq_bool_iff in E. contradiction.
Qed.

Lemma isButtonPressed_iff (b : Button.t) (now : Q) (s : ButtonState) :
  is_double now ->
  (isButtonPressed b now s = true <-> now - get s b <= PRESS_LIMIT).
Proof.
  intro Hd. destruct (Qeq_dec (get s b) 0) as [H0|Hne].
  - rewrite (isButtonPressed_released b now s H0).
    rewrite (double_below_ONE_FRAME now Hd). rewrite H0.
    split; intro H; lra.
  - rewrite (isButtonPressed_held b now s Hne).
    apply ONE_FRAME_threshold.
Qed.

(** A value that is not above a rational below [q] is below [q]. *)
Lemma ngt_below (a : number) (p q : Q) :
  a <> NaN -> ngt a (Fin p) = false -> p < q -> ngt (Fin q) a = true.
Proof.
  intros Hn Hp Hpq. destruct a as [r| | | |]; try reflexivity;
    try discriminate; try congruence.
  - apply ngt_Fin_false in Hp. apply ngt_Fin. lra.
  - unfold ngt in *. apply Qlt_bool_false_iff in Hp.
    apply Qlt_bool_iff. lra.
Qed.

Lemma ngt_left_le (a : number) (l q : Q) :
  ngt (Fin l) a = false -> q <= l -> ngt (Fin q) a = false.
Proof.
  intros Hl Hql. destruct a as [r| | | |]; try reflexivity;
    try discriminate.
  - apply ngt_Fin_false in Hl. apply ngt_Fin_false. lra.
  - unfold ngt in *. apply Qlt_bool_false_iff in Hl.
    apply Qlt_bool_false_iff. lra.
Qed.

(** Comparing a rounded value with the value of the literal is
    comparing it with 16.666: no binary64 value lies between the two. *)
Lemma ONE_FRAME_exact (x : Q) :
  ngt ONE_FRAME (RN x) = ngt (Fin (16666 # 1000)) (RN x).
Proof.
  destruct (ngt ONE_FRAME (RN x)) eqn:E.
  - apply ONE_FRAME_threshold in E.
    pose proof (RN_mono _ _ E) as Hm. rewrite PRESS_LIMIT_rounds_down in Hm.
    symmetry.
    apply ngt_below with (293191372616237 # 17592186044416);
      [apply RN_not_NaN|exact Hm|reflexivity].
  - symmetry. rewrite ONE_FRAME_eq in E.
    apply ngt_left_le with (4691061961859793 # 281474976710656);
      [exact E|]. apply Qlt_le_weak. reflexivity.
Qed.

Lemma isButtonPressed_exact (b : Button.t) (now : Q) (s : ButtonState) :
  is_double now ->
  isButtonPressed b now s
  = ngt (Fin (16666 # 1000)) (nsub (Fin now) (Fin (get s b))).
Proof.
  intros (r & Hr & Hrn). unfold isButtonPressed, nsub.
  destruct (Qeq_bool (get s b) 0).
  - rewrite <- (ngt_compat_r _ r now Hrn), <- (ngt_compat_r _ r now Hrn).
    rewrite <- Hr. apply ONE_FRAME_exact.
  - apply ONE_FRAME_exact.
Qed.

Lemma isButtonPressed_at_press (b : Button.t) (t : Q) (s : ButtonState) :
  get s b == t -> isButtonPressed b t s = true.
Proof.
  intro Ht. destruct (Qeq_dec (get s b) 0) as [H0|Hne].
  - rewrite (isButtonPressed_released b t s H0).
    rewrite ONE_FRAME_eq. apply ngt_Fin. rewrite <- Ht, H0. reflexivity.
  - rewrite (isButtonPressed_held b t s Hne).
    rewrite (RN_compat (t - get s b) 0) by (rewrite Ht; ring).
    rewrite ONE_FRAME_eq. reflexivity.
Qed.

(** C6.  For a clock reading that is a binary64 value, [isButtonPressed]
    answers true exactly when the difference of the clock reading and
    the stored timestamp, as the subtraction of binary64 values gives
    it, is below 16.666; that the literal is itself rounded makes no
    difference.  On the exact difference: the answer is true exactly
    when it is at most [PRESS_LIMIT], the last point that rounds below
    the literal, which lies less than [2 ^ -49] under 16.666.  Hence,
    after a key-down at time [t] on a released button and with the state
    left as that press made it, the query is true at [t] and at every
    reading whose distance from [t] is at most [PRESS_LIMIT], and false
    at every reading 16.666 or more after [t]. *)
Theorem C6_isButtonPressed_window (b : Button.t) (now : Q)
    (s : ButtonState) (Hnow : is_double now) :
  isButtonPressed b now s
    = ngt (Fin (16666 # 1000)) (nsub (Fin now) (Fin (get s b))) /\
  (isButtonPressed b now s = true <-> now - get s b <= PRESS_LIMIT) /\
  ((16666 # 1000) - (1 # 562949953421312) < PRESS_LIMIT
   /\ PRESS_LIMIT < 16666 # 1000) /\
  (forall (k : string) (t : Q),
      keyToButton k = Some b -> get s b == 0 ->
      isButtonPressed b t (onkeydown k t s) = true /\
      (now - t <= PRESS_LIMIT ->
       isButtonPressed b now (onkeydown k t s) = true) /\
      (16666 # 1000 <= now - t ->
       isButtonPressed b now (onkeydown k t s) = false)).
Proof.
  split; [now apply isButtonPressed_exact|].
  split; [now apply isButtonPressed_iff|].
  split; [split; reflexivity|].
  intros k t Hk H0.
  rewrite (onkeydown_released k b t s Hk H0).
  pose proof (isButtonPressed_iff b now (set s b t) Hnow) as Hiff.
  rewrite get_set_same in Hiff.
  split; [|split].
  - apply isButtonPressed_at_press. rewrite get_set_same. reflexivity.
  - intro Hle. now apply Hiff.
  - intro Hge.
    destruct (isButtonPressed b now (set s b t)) eqn:E; [|reflexivity].
    exfalso. assert (Hle : now - t <= PRESS_LIMIT) by now apply Hiff.
    assert (Hlt : PRESS_LIMIT < 16666 # 1000) by reflexivity.
    lra.
Qed.

(** A press at the binary64 value of 0.2 and a query at that of 16.866:
    the exact difference is below 16.666, the rounded one is the value of
    the literal, and the answer is false. *)
Lemma C6_isButtonPressed_window_witness :
  is_double (1186839239300481 # 70368744177664) /\
  keyToButton "x" = Some Button.B /\ get BUTTONS Button.B == 0 /\
  isButtonPressed Button.B (3602879701896397 # 18014398509481984)
    (onkeydown "x" (3602879701896397 # 18014398509481984) BUTTONS) = true /\
  (1186839239300481 # 70368744177664)
    - (3602879701896397 # 18014398509481984) < 16666 # 1000 /\
  isButtonPressed Button.B (1186839239300481 # 70368744177664)
    (onkeydown "x" (3602879701896397 # 18014398509481984) BUTTONS) = false /\
  isButtonPressed Button.B (1186839239300481 # 70368744177664)
    (onkeydown "x" (3602879701896397 # 9007199254740992) BUTTONS) = true.
Proof.
  assert (Hd : is_double (1186839239300481 # 70368744177664)).
  { exists (1186839239300481 # 70368744177664).
    split; [vm_compute; reflexivity|reflexivity]. }
  assert (Hk : keyToButton "x" = Some Button.B) by reflexivity.
  assert (H0 : get BUTTONS Button.B == 0) by reflexivity.
  split; [exact Hd|]. split; [exact Hk|]. split; [exact H0|].
  destruct (C6_isButtonPressed_window Button.B
              (1186839239300481 # 70368744177664)
              (onkeydown "x" (3602879701896397 # 18014398509481984) BUTTONS)
              Hd) as (_ & Hiff & _ & _).
  destruct (C6_isButtonPressed_window Button.B
              (1186839239300481 # 70368744177664) BUTTONS Hd)
    as (_ & _ & _ & Hpress).
  destruct (Hpress "x" (3602879701896397 # 18014398509481984) Hk H0)
    as (Hat & _ & _).
  destruct (Hpress "x" (3602879701896397 # 9007199254740992) Hk H0)
    as (_ & Hin & _).
  split; [exact Hat|]. split; [reflexivity|]. split.
  - destruct (isButtonPressed Button.B (1186839239300481 # 70368744177664)
                (onkeydown "x" (3602879701896397 # 18014398509481984)
                   BUTTONS)) eqn:E; [|reflexivity].
    exfalso. assert (Hle := proj1 Hiff eq_refl).
    vm_compute in Hle. apply Hle. reflexivity.
  - apply Hin. vm_compute. discriminate.
Defined.

Lemma button_eq_dec (x y : Button.t) : {x = y} + {x <> y}.
Proof. decide equality. Defined.

Lemma handle_nonneg (s : ButtonState) (e : KeyEvent) :
  clock_nonneg e ->
  (forall b, 0 <= get s b) -> forall b, 0 <= get (handle s e) b.
Proof.
  intros He Hs b. destruct e as [k now | k]; simpl in *.
  - unfold onkeydown. destruct (keyToButton k) as [b'|]; [|apply Hs].
    destruct (button_truthy b' && Qeq_bool (get s b') 0); [|apply Hs].
    destruct (button_eq_dec b b') as [->|Hne].
    + now rewrite get_set_same.
    + rewrite get_set_other by assumption. apply Hs.
  - unfold onkeyup. destruct (keyToButton k) as [b'|]; [|apply Hs].
    destruct (button_truthy b'); [|apply Hs].
    destruct (button_eq_dec b b') as [->|Hne].
    + rewrite get_set_same. apply Qle_refl.
    + rewrite get_set_other by assumption. apply Hs.
Qed.

Lemma handle_all_nonneg (es : list KeyEvent) :
  Forall clock_nonneg es ->
  forall s, (forall b, 0 <= get s b) ->
  forall b, 0 <= get (handle_all es s) b.
Proof.
  unfold handle_all. induction 1 as [|e es He _ IH]; intros s Hs; simpl.
  - exact Hs.
  - apply IH. now apply handle_nonneg.
Qed.

Lemma BUTTONS_nonneg (b : Button.t) : 0 <= get BUTTONS b.
Proof. destruct b; simpl; apply Qle_refl. Qed.

(** What one event does to the slot of [b]: a release of [b] clears it,
    a key-down of [b] on a zero slot stamps it, anything else keeps it. *)
Lemma handle_slot (s : ButtonState) (e : KeyEvent) (b : Button.t) :
  (releases e b /\ get (handle s e) b = 0) \/
  (~ releases e b /\
   ((exists k now, e = KeyDown k now /\ get s b == 0 /\
                   get (handle s e) b = now) \/
    get (handle s e) b = get s b)).
Proof.
  destruct e as [k now | k]; simpl.
  - right. split; [tauto|].
    unfold onkeydown. destruct (keyToButton k) as [b'|]; [|now right].
    rewrite button_truthy_all. simpl.
    destruct (Qeq_bool (get s b') 0) eqn:E; [|now right].
    destruct (button_eq_dec b b') as [->|Hne].
    + left. exists k, now. repeat split.
      * now apply Qeq_bool_iff.
      * apply get_set_same.
    + right. now apply get_set_other.
  - unfold onkeyup. destruct (keyToButton k) as [b'|].
    + rewrite button_truthy_all.
      destruct (button_eq_dec b b') as [->|Hne].
      * left. split; [reflexivity|apply get_set_same].
      * right. split; [congruence|]. right. now apply get_set_other.
    + right. split; [discriminate|now right].
Qed.

(** C7.  In every state reached from the initial [BUTTONS] by key-down and
    key-up events whose clock readings are not negative, and for every
    button: [isButtonDown] is true exactly when the stored timestamp is
    not zero; an event that takes the stored value from nonzero to zero is
    a release of that button; and an event that is not a release of that
    button does not decrease the stored value. *)
Theorem C7_down_iff_nonzero (es : list KeyEvent) (b : Button.t)
    (H : Forall clock_nonneg es) :
  (isButtonDown b (handle_all es BUTTONS) = true <->
   ~ get (handle_all es BUTTONS) b == 0) /\
  (forall e : KeyEvent, clock_nonneg e ->
     (~ get (handle_all es BUTTONS) b == 0 ->
      get (handle (handle_all es BUTTONS) e) b == 0 -> releases e b) /\
     (~ releases e b ->
      get (handle_all es BUTTONS) b
        <= get (handle (handle_all es BUTTONS) e) b)).
Proof.
  pose proof (handle_all_nonneg es H BUTTONS BUTTONS_nonneg b) as Hge.
  set (s := handle_all es BUTTONS) in *.
  split.
  - unfold isButtonDown. rewrite Qlt_bool_iff. split.
    + intros Hlt Heq. rewrite Heq in Hlt. now apply Qlt_irrefl in Hlt.
    + intro Hne. apply Qle_lteq in Hge. destruct Hge as [Hlt|Heq].
      * exact Hlt.
      * exfalso. apply Hne. now symmetry.
  - intros e He.
    destruct (handle_slot s e b) as [[Hr _] | [Hnr [(k & now & -> & H0 & Hv) | Hv]]].
    + split; [auto | contradiction].
    + split; [contradiction|]. intros _. rewrite Hv, H0. exact He.
    + split.
      * intros Hne Hz. rewrite Hv in Hz. contradiction.
      * intros _. rewrite Hv. apply Qle_refl.
Qed.

Lemma C7_down_iff_nonzero_witness :
  Forall clock_nonneg [KeyDown "z" 5; KeyUp "x"] /\
  (isButtonDown Button.A (handle_all [KeyDown "z" 5; KeyUp "x"] BUTTONS)
     = true <->
   ~ get (handle_all [KeyDown "z" 5; KeyUp "x"] BUTTONS) Button.A == 0).
Proof.
  assert (Hf : Forall clock_nonneg [KeyDown "z" 5; KeyUp "x"]).
  { repeat constructor. simpl. lra. }
  split; [exact Hf|].
  apply (C7_down_iff_nonzero [KeyDown "z" 5; KeyUp "x"] Button.A Hf).
Defined.

(** Case analysis on every comparison of the key [k] with a label. *)
Ltac key_cases k :=
  repeat match goal with
         | |- context [String.eqb k ?l] => destruct (String.eqb_spec k l)
         end.

Lemma keyToButton_None_iff (k : string) :
  keyToButton k = None <-> ~ In k case_labels.
Proof.
  unfold keyToButton, case_labels. simpl.
  key_cases k;
    split; intro H; try discriminate; try reflexivity;
    try (exfalso; apply H; subst; tauto).
  intuition congruence.
Qed.

(** C8.  For every key string that is none of the [case] labels of
    [keyToButton], the key-down handler (at any clock reading) and the
    key-up handler return the button state they were given.  Both
    handlers are total: there is no path on which they raise. *)
Theorem C8_unmapped_ignored (k : string) (now : Q) (s : ButtonState)
    (H : ~ In k case_labels) :
  keyToButton k = None /\ onkeydown k now s = s /\ onkeyup k s = s.
Proof.
  apply keyToButton_None_iff in H.
  unfold onkeydown, onkeyup. rewrite H. auto.
Qed.

Lemma C8_unmapped_ignored_witness :
  ~ In "q" case_labels /\
  onkeydown "q" 7 (onkeydown "z" 5 BUTTONS) = onkeydown "z" 5 BUTTONS /\
  onkeyup "q" (onkeydown "z" 5 BUTTONS) = onkeydown "z" 5 BUTTONS.
Proof.
  assert (Hq : ~ In "q" case_labels).
  { apply keyToButton_None_iff. reflexivity. }
  split; [exact Hq|].
  apply (C8_unmapped_ignored "q" 7 (onkeydown "z" 5 BUTTONS) Hq).
Defined.

(** C9.  For every button whose stored timestamp is zero, at every clock
    reading below 16.666, [isButtonPressed] is true while [isButtonDown]
    is false. *)
Theorem C9_pressed_while_released (b : Button.t) (now : Q)
    (s : ButtonState) (H0 : get s b == 0) (Hnow : now < 16666 # 1000) :
  isButtonPressed b now s = true /\ isButtonDown b s = false.
Proof.
  split.
  - rewrite (isButtonPressed_released b now s H0), ONE_FRAME_eq.
    apply ngt_Fin.
    apply Qlt_trans with (16666 # 1000); [exact Hnow|reflexivity].
  - unfold isButtonDown. apply Qlt_bool_false_iff. rewrite H0.
    apply Qle_refl.
Qed.

Lemma C9_pressed_while_released_witness :
  get BUTTONS Button.Start == 0 /\ 5 < 16666 # 1000 /\
  isButtonPressed Button.Start 5 BUTTONS = true /\
  isButtonDown Button.Start BUTTONS = false.
Proof.
  assert (H0 : get BUTTONS Button.Start == 0) by reflexivity.
  assert (H5 : 5 < 16666 # 1000) by reflexivity.
  split; [exact H0|]. split; [exact H5|].
  apply (C9_pressed_while_released Button.Start 5 BUTTONS H0 H5).
Defined.

(** C10.  [keyToButton] compares the whole key string exactly: it gives
    button A for the string z and for no other, button B for the string x
    and for no other; the upper-case strings Z and X give no button; and a
    key-up delivered as Z leaves a state in which A was pressed as z as it
    is, so A keeps its press timestamp. *)
Theorem C10_exact_case_sensitive :
  (forall k, keyToButton k = Some Button.A <-> k = "z") /\
  (forall k, keyToButton k = Some Button.B <-> k = "x") /\
  keyToButton "Z" = None /\ keyToButton "X" = None /\
  (forall (t : Q) (s : ButtonState),
      onkeyup "Z" (onkeydown "z" t s) = onkeydown "z" t s) /\
  (forall t : Q, get (onkeyup "Z" (onkeydown "z" t BUTTONS)) Button.A = t).
Proof.
  repeat split; try reflexivity;
    try (intro Hk; subst; reflexivity).
  - unfold keyToButton. key_cases k; intro Hk; congruence.
  - unfold keyToButton. key_cases k; intro Hk; congruence.
Qed.

(** ** The frame scheduler *)

(** [start], statement by statement, as one expression. *)
Lemma start_eq {C : Type} (cb : callback C) (fps : number) (now : Q)
    (w : World C) :
  start cb fps now w =
  let h2 := rearm (host w) in
  let delta := nsub (Fin now) (then_ (sched w)) in
  let sc := set_delta delta (set_now (Fin now) (sched w)) in
  if ngt delta fps then
    let sc1 := set_then (nsub (Fin now) (nrem delta fps)) sc in
    match cb (client w, h2) with
    | (Return _, (c, h)) =>
        (Return tt, mkWorld sc1 c h (out w ++ [Called (Return tt)]))
    | (Throw err, (c, h)) =>
        if negb (truthy (error_ (sched w)))
        then (Return tt,
              mkWorld (set_error err sc1) c h
                      (out w ++ [Called (Throw err); Logged err]))
        else (Return tt, mkWorld sc1 c h (out w ++ [Called (Throw err)]))
    end
  else (Return tt, mkWorld sc (client w) h2 (out w)).
Proof.
  unfold start, bind, request_frame, on_host, on_sched, gets, modify,
    try_catch, call, emit, ret, bind; cbn -[nsub nrem ngt].
  destruct (ngt (nsub (Fin now) (then_ (sched w))) fps); [|reflexivity].
  cbn -[nsub nrem ngt].
  destruct (cb _) as [[[]|err] [c h]]; cbn -[nsub nrem ngt]; [reflexivity|].
  destruct (truthy (error_ (sched w))); cbn -[nsub nrem ngt]; [reflexivity|].
  unfold modify; cbn -[nsub nrem ngt]. rewrite <- app_assoc. reflexivity.
Qed.

(** No exception leaves the notification handler. *)
Lemma start_returns {C : Type} (cb : callback C) (fps : number) (now : Q)
    (w : World C) :
  fst (start cb fps now w) = Return tt.
Proof.
  rewrite start_eq. cbv zeta.
  destruct (ngt _ fps); [|reflexivity].
  destruct (cb _) as [[[]|err] [c h]]; [reflexivity|].
  destruct (negb _); reflexivity.
Qed.

Lemma ticks_app (l1 l2 : list Obs) : ticks (l1 ++ l2) = (ticks l1 + ticks l2)%nat.
Proof. unfold ticks. now rewrite filter_app, length_app. Qed.

Lemma logs_app (l1 l2 : list Obs) : logs (l1 ++ l2) = (logs l1 + logs l2)%nat.
Proof. unfold logs. now rewrite filter_app, length_app. Qed.

Lemma failed_app (l1 l2 : list Obs) :
  failed (l1 ++ l2) = (failed l1 + failed l2)%nat.
Proof. unfold failed. now rewrite filter_app, length_app. Qed.

(** What a notification leaves behind when the interval has not passed. *)
Lemma start_skip {C : Type} (cb : callback C) (fps : number) (now : Q)
    (w : World C) :
  ngt (nsub (Fin now) (then_ (sched w))) fps = false ->
  snd (start cb fps now w) =
  mkWorld (set_delta (nsub (Fin now) (then_ (sched w)))
             (set_now (Fin now) (sched w)))
          (client w) (rearm (host w)) (out w).
Proof.
  intro H. rewrite start_eq. cbv zeta. rewrite H. reflexivity.
Qed.

(** What a notification does when the interval has passed. *)
Lemma start_fire {C : Type} (cb : callback C) (fps : number) (now : Q)
    (w : World C) :
  ngt (nsub (Fin now) (then_ (sched w))) fps = true ->
  then_ (sched (snd (start cb fps now w))) =
    nsub (Fin now) (nrem (nsub (Fin now) (then_ (sched w))) fps) /\
  ticks (out (snd (start cb fps now w))) = S (ticks (out w)) /\
  client (snd (start cb fps now w)) = fst (snd (cb (client w, rearm (host w)))) /\
  host (snd (start cb fps now w)) = snd (snd (cb (client w, rearm (host w)))).
Proof.
  intro H. rewrite start_eq. cbv zeta. rewrite H.
  destruct (cb _) as [[[]|err] [c h]]; [|destruct (negb _)];
    cbn [fst snd sched client host out then_ set_then set_error];
    rewrite ticks_app; repeat split; cbn; lia.
Qed.

(** A value that is not below a rational above [p] exceeds [p]. *)
Lemma ngt_above (a : number) (p q : Q) :
  a <> NaN -> ngt (Fin q) a = false -> p < q -> ngt a (Fin p) = true.
Proof.
  intros Hn Hq Hpq. destruct a as [r| | | |]; try reflexivity;
    try discriminate; try congruence.
  - apply ngt_Fin_false in Hq. apply ngt_Fin. lra.
  - unfold ngt in *. apply Qlt_bool_false_iff in Hq.
    apply Qlt_bool_iff. lra.
Qed.

(** The difference [now - t] of binary64 values against the exact one. *)
Lemma nsub_le_double (now t p : Q) :
  is_double p -> now - t <= p ->
  ngt (nsub (Fin now) (Fin t)) (Fin p) = false.
Proof.
  intros Hp Hle. unfold nsub.
  destruct (Qeq_bool t 0) eqn:E.
  - apply Qeq_bool_iff in E. apply ngt_Fin_false. rewrite E in Hle. lra.
  - now apply RN_le_double.
Qed.

Lemma nsub_ge_double (now t p q : Q) :
  is_double q -> p < q -> q <= now - t ->
  ngt (nsub (Fin now) (Fin t)) (Fin p) = true.
Proof.
  intros Hq Hpq Hle. unfold nsub.
  destruct (Qeq_bool t 0) eqn:E.
  - apply Qeq_bool_iff in E. apply ngt_Fin. rewrite E in Hle. lra.
  - apply ngt_above with q; [apply RN_not_NaN| |exact Hpq].
    now apply RN_ge_double.
Qed.

(** C1 (as amended).  For every notification at clock reading [now], with
    a finite last tick time [t] and a finite interval [p], and for every
    callback; [delta] is the difference [now - t] as the subtraction of
    binary64 values gives it.  Every notification stores [now] and
    [delta] in the scratch variables.  If [delta] exceeds [p], the
    callback is invoked exactly once, however large [delta] is: it is
    given the host in which the request has been re-armed and the new
    handle stored in the timer slot, its own variables and the host are
    left as that one call leaves them, and the last tick time becomes
    [now - delta % p].  If [delta] is at most [p] the callback is not
    invoked, and the last tick time, the error slot, the callback's own
    variables and the trace stay as they were, while the request is
    re-armed and its handle stored in the timer slot.  For a finite
    [delta], exceeding is the strict order of the values.  Against the
    exact difference: for an interval that is a binary64 value an exact
    difference of at most [p] does not fire, and an exact difference
    that reaches a binary64 value above [p] fires. *)
Theorem C1_fires_iff_delta_exceeds {C : Type} (cb : callback C)
    (p t now : Q) (w : World C) (Ht : then_ (sched w) = Fin t) :
  let delta := nsub (Fin now) (Fin t) in
  let w' := snd (start cb (Fin p) now w) in
  (now_ (sched w') = Some (Fin now) /\ delta_ (sched w') = Some delta) /\
  (ngt delta (Fin p) = true ->
     ticks (out w') = S (ticks (out w)) /\
     client w' = fst (snd (cb (client w, rearm (host w)))) /\
     host w' = snd (snd (cb (client w, rearm (host w)))) /\
     then_ (sched w') = nsub (Fin now) (nrem delta (Fin p))) /\
  (ngt delta (Fin p) = false ->
     out w' = out w /\
     client w' = client w /\
     then_ (sched w') = then_ (sched w) /\
     error_ (sched w') = error_ (sched w) /\
     host w' = rearm (host w)) /\
  (forall d, delta = Fin d -> (ngt delta (Fin p) = true <-> p < d)) /\
  (is_double p -> now - t <= p -> ngt delta (Fin p) = false) /\
  (forall q, is_double q -> p < q -> q <= now - t ->
             ngt delta (Fin p) = true).
Proof.
  intros delta w'.
  split; [|split; [|split; [|split; [|split]]]].
  - unfold w'. rewrite start_eq. cbv zeta. rewrite Ht. fold delta.
    destruct (ngt delta (Fin p)); [|split; reflexivity].
    destruct (cb _) as [[[]|err] [c h]]; [split; reflexivity|].
    destruct (negb _); split; reflexivity.
  - intro E.
    assert (E' : ngt (nsub (Fin now) (then_ (sched w))) (Fin p) = true)
      by (rewrite Ht; exact E).
    destruct (start_fire cb (Fin p) now w E') as (H1 & H2 & H3 & H4).
    rewrite Ht in H1. repeat split; assumption.
  - intro E. unfold w'.
    rewrite start_skip by (rewrite Ht; exact E). repeat split.
  - intros d ->. apply ngt_Fin.
  - intros Hp Hle. now apply nsub_le_double.
  - intros q Hq Hpq Hle. now apply nsub_ge_double with q.
Qed.

(** With last tick time 0 and interval 10: the notification at 21 invokes
    the counting callback once, the one at 9 does not.  With the last
    tick time at the binary64 value of 0.3 and the notification at that
    of 10.3, the exact difference exceeds 10, the difference of the
    binary64 values is 10, and the callback is not invoked. *)
Lemma C1_fires_iff_delta_exceeds_witness :
  (ticks (out (snd (start count_calls (Fin 10) 21
                      (mkWorld (mkSched (Fin 0) None None JUndefined)
                               0%nat fresh_host [])))) = 1%nat /\
   client (snd (start count_calls (Fin 10) 21
                  (mkWorld (mkSched (Fin 0) None None JUndefined)
                           0%nat fresh_host []))) = 1%nat) /\
  out (snd (start count_calls (Fin 10) 9
              (mkWorld (mkSched (Fin 0) None None JUndefined)
                       0%nat fresh_host []))) = [] /\
  10 < (2899192260119757 # 281474976710656)
       - (5404319552844595 # 18014398509481984) /\
  out (snd (start count_calls (Fin 10)
              (2899192260119757 # 281474976710656)
              (mkWorld (mkSched (Fin (5404319552844595 # 18014398509481984))
                                None None JUndefined)
                       0%nat fresh_host []))) = [].
Proof.
  split; [|split; [|split]].
  - destruct (C1_fires_iff_delta_exceeds count_calls 10 0 21
                (mkWorld (mkSched (Fin 0) None None JUndefined)
                         0%nat fresh_host []) eq_refl)
      as (_ & Hfire & _).
    destruct (Hfire eq_refl) as (H1 & H2 & _). split; [exact H1|exact H2].
  - destruct (C1_fires_iff_delta_exceeds count_calls 10 0 9
                (mkWorld (mkSched (Fin 0) None None JUndefined)
                         0%nat fresh_host []) eq_refl)
      as (_ & _ & Hskip & _).
    exact (proj1 (Hskip eq_refl)).
  - reflexivity.
  - destruct (C1_fires_iff_delta_exceeds count_calls 10
                (5404319552844595 # 18014398509481984)
                (2899192260119757 # 281474976710656)
                (mkWorld (mkSched (Fin (5404319552844595 # 18014398509481984))
                                  None None JUndefined)
                         0%nat fresh_host []) eq_refl)
      as (_ & _ & Hskip & _).
    apply Hskip. vm_compute. reflexivity.
Defined.

(** C1 as stated fails on the boundary and on the state: with last tick
    time 0 and interval 10, a notification at 10 has delta = 10 >= 10 and
    yet invokes the callback zero times; and a notification at 5, with
    delta = 5 < 10, changes the scheduler's world (it re-arms the request
    and stores the new handle). *)
Lemma C1_counterexample :
  nsub (Fin 10) (Fin 0) = Fin 10 /\ 10 <= 10 /\
  ticks (out (snd (start count_calls (Fin 10) 10
                     (mkWorld (mkSched (Fin 0) None None JUndefined)
                              0%nat fresh_host [])))) = 0%nat /\
  nsub (Fin 5) (Fin 0) = Fin 5 /\ 5 < 10 /\
  STARSHIP_TIMER
    (host (snd (start count_calls (Fin 10) 5
                  (mkWorld (mkSched (Fin 0) None None JUndefined)
                           0%nat fresh_host [])))) = Some 1%nat /\
  STARSHIP_TIMER fresh_host = None.
Proof.
  vm_compute. repeat split; discriminate.
Qed.

(** ** Requests, frames and the timer slot *)

Lemma stop_clears (h : Host) :
  slot_owns_pending h -> raf_pending (stop h) = [].
Proof.
  unfold slot_owns_pending, stop. intro H.
  destruct (STARSHIP_TIMER h) as [i|] eqn:Ei; simpl.
  - induction (raf_pending h) as [|j l IH]; [reflexivity|]. simpl.
    assert (Hj : Some i = Some j) by (apply H; now left).
    injection Hj as <-. rewrite Nat.eqb_refl. simpl.
    apply IH. intros id Hid. apply H. now right.
  - destruct (raf_pending h) as [|j l]; [reflexivity|].
    specialize (H j (or_introl eq_refl)). discriminate.
Qed.

Lemma rearm_armed (h : Host) : raf_pending h = [] -> armed (rearm h).
Proof.
  intro H. exists (raf_next h). unfold rearm. simpl. rewrite H. auto.
Qed.

Lemma armed_slot_owns (h : Host) : armed h -> slot_owns_pending h.
Proof.
  intros (id & Hp & Ht) j Hj. rewrite Hp in Hj.
  destruct Hj as [<-|[]]. exact Ht.
Qed.

Lemma frame_idle {C : Type} (cb : callback C) (fps : number) (now : Q)
    (w : World C) :
  raf_pending (host w) = [] -> frame cb fps now w = w.
Proof. intro H. unfold frame. rewrite H. reflexivity. Qed.

Lemma frames_idle {C : Type} (cb : callback C) (fps : number)
    (ts : list Q) (w : World C) :
  raf_pending (host w) = [] -> frames cb fps ts w = w.
Proof.
  intro H. unfold frames. induction ts as [|t ts IH]; [reflexivity|].
  simpl. rewrite (frame_idle cb fps t w H). exact IH.
Qed.

(** On an armed host a frame is one notification, delivered to a host
    that no longer lists the request. *)
Lemma frame_armed {C : Type} (cb : callback C) (fps : number) (now : Q)
    (w : World C) :
  armed (host w) ->
  frame cb fps now w =
  snd (start cb fps now
         (mkWorld (sched w) (client w)
                  (mkHost (raf_next (host w)) [] (STARSHIP_TIMER (host w)))
                  (out w))).
Proof.
  intros (id & Hp & _). unfold frame. rewrite Hp. simpl.
  unfold deliver, cancelAnimationFrame. rewrite Hp. simpl.
  rewrite Nat.eqb_refl. reflexivity.
Qed.

Lemma start_host {C : Type} (cb : callback C) (fps : number) (now : Q)
    (w : World C) :
  leaves_host cb -> host (snd (start cb fps now w)) = rearm (host w).
Proof.
  intro Hl.
  destruct (ngt (nsub (Fin now) (then_ (sched w))) fps) eqn:E.
  - destruct (start_fire cb fps now w E) as (_ & _ & _ & ->). apply Hl.
  - rewrite (start_skip cb fps now w E). reflexivity.
Qed.

(** One frame on an armed host, for a callback that leaves the host
    alone. *)
Lemma frame_step {C : Type} (cb : callback C) (fps : number) (now : Q)
    (w : World C) :
  armed (host w) -> leaves_host cb ->
  armed (host (frame cb fps now w)) /\
  (ngt (nsub (Fin now) (then_ (sched w))) fps = false ->
     then_ (sched (frame cb fps now w)) = then_ (sched w) /\
     error_ (sched (frame cb fps now w)) = error_ (sched w) /\
     client (frame cb fps now w) = client w /\
     out (frame cb fps now w) = out w) /\
  (ngt (nsub (Fin now) (then_ (sched w))) fps = true ->
     then_ (sched (frame cb fps now w)) =
       nsub (Fin now) (nrem (nsub (Fin now) (then_ (sched w))) fps) /\
     ticks (out (frame cb fps now w)) = S (ticks (out w))).
Proof.
  intros Ha Hl. rewrite (frame_armed cb fps now w Ha).
  set (w1 := mkWorld (sched w) (client w)
               (mkHost (raf_next (host w)) [] (STARSHIP_TIMER (host w)))
               (out w)).
  split; [|split].
  - rewrite (start_host cb fps now w1 Hl). now apply rearm_armed.
  - intro E. rewrite (start_skip cb fps now w1 E). repeat split.
  - intro E. destruct (start_fire cb fps now w1 E) as (H1 & H2 & _).
    split; assumption.
Qed.

Lemma setAnimationFrame_eq {C : Type} (cb : callback C) (fps : number)
    (t0 t1 : Q) (c : C) (h : Host) :
  setAnimationFrame cb fps t0 t1 c h =
  start cb fps t1
    (mkWorld (mkSched (Fin t0) None None JUndefined) c (stop h) []).
Proof. reflexivity. Qed.

Lemma frames_app {C : Type} (cb : callback C) (fps : number)
    (l1 l2 : list Q) (w : World C) :
  frames cb fps (l1 ++ l2) w = frames cb fps l2 (frames cb fps l1 w).
Proof. unfold frames. apply fold_left_app. Qed.

Lemma frames_one {C : Type} (cb : callback C) (fps : number) (t : Q)
    (w : World C) :
  frames cb fps [t] w = frame cb fps t w.
Proof. reflexivity. Qed.

Lemma frames_armed {C : Type} (cb : callback C) (fps : number)
    (ts : list Q) (w : World C) :
  leaves_host cb -> armed (host w) -> armed (host (frames cb fps ts w)).
Proof.
  intro Hl. unfold frames. revert w.
  induction ts as [|t ts IH]; intros w Ha; simpl; [exact Ha|].
  apply IH. now apply frame_step.
Qed.

(** One frame on an armed host that does not fire, and one that does,
    for a callback that leaves the host alone. *)
Lemma frame_skip {C : Type} (cb : callback C) (fps : number) (now : Q)
    (w : World C) :
  armed (host w) -> leaves_host cb ->
  ngt (nsub (Fin now) (then_ (sched w))) fps = false ->
  armed (host (frame cb fps now w)) /\
  then_ (sched (frame cb fps now w)) = then_ (sched w) /\
  client (frame cb fps now w) = client w /\
  out (frame cb fps now w) = out w.
Proof.
  intros Ha Hl E.
  destruct (frame_step cb fps now w Ha Hl) as (A & S & _).
  destruct (S E) as (H1 & _ & H2 & H3). repeat split; assumption.
Qed.

Lemma frame_fire {C : Type} (cb : callback C) (fps : number) (now : Q)
    (w : World C) :
  armed (host w) -> leaves_host cb ->
  ngt (nsub (Fin now) (then_ (sched w))) fps = true ->
  armed (host (frame cb fps now w)) /\
  then_ (sched (frame cb fps now w)) =
    nsub (Fin now) (nrem (nsub (Fin now) (then_ (sched w))) fps) /\
  ticks (out (frame cb fps now w)) = S (ticks (out w)) /\
  client (frame cb fps now w) =
    fst (snd (cb (client w, host (frame cb fps now w)))).
Proof.
  intros Ha Hl E.
  destruct (frame_step cb fps now w Ha Hl) as (A & _ & F).
  destruct (F E) as (H1 & H2).
  split; [exact A|]. split; [exact H1|]. split; [exact H2|].
  rewrite (frame_armed cb fps now w Ha).
  set (w1 := mkWorld (sched w) (client w)
               (mkHost (raf_next (host w)) [] (STARSHIP_TIMER (host w)))
               (out w)).
  destruct (start_fire cb fps now w1 E) as (_ & _ & Hc & Hh).
  rewrite Hc, Hh, Hl. reflexivity.
Qed.

(** The remainder of a difference that exceeds a positive interval. *)
Lemma nrem_exceeding (d p : Q) :
  0 < p -> p < d ->
  exists (k : Z) (r : Q),
    (1 <= k)%Z /\ 0 <= r /\ r < p /\ d == inject_Z k * p + r /\
    nrem (Fin d) (Fin p) = Fin r.
Proof.
  intros Hp Hd.
  destruct (Qrem_bounds d p ltac:(lra) Hp) as (H0 & H1 & H2 & H3).
  exists (Qtrunc (d / p)). unfold nrem. rewrite (Qeq_bool_pos p Hp).
  destruct (Qeq_bool (Qrem d p) 0) eqn:E.
  - apply Qeq_bool_iff in E.
    assert (Hn : Qlt_bool d 0 = false) by (apply Qlt_bool_false_iff; lra).
    rewrite Hn. exists 0.
    split; [now apply H3|]. split; [lra|]. split; [exact Hp|].
    split; [|reflexivity].
    rewrite E in H2. rewrite (Qmult_comm (inject_Z _) p), <- H2. ring.
  - exists (Qrem d p).
    split; [now apply H3|]. split; [exact H0|]. split; [exact H1|].
    split; [|reflexivity].
    rewrite (Qmult_comm (inject_Z _) p), <- H2. ring.
Qed.

(** C2.  Whenever a notification invokes the callback, the last tick time
    becomes [now - (delta % fps)], where [delta] is the difference
    [now - then] as the subtraction of binary64 values gives it.  With a
    finite [then], a positive interval [p] and a finite [delta] above
    [p], what is taken from [now] is the remainder [r] of [delta] by [p]:
    [delta = k * p + r] for a whole [k >= 1] and [0 <= r < p]; the new
    last tick time is [now - r] rounded, which is [now - r] itself when
    that is a binary64 value.  For the interval 10, a scheduler created
    at time 0 and frames at 0, 9, 21 and 31, no tick has fired after the
    frames at 0 and 9, the frame at 21 fires the first tick and leaves
    the last tick time at 20, and the frame at 31 fires the second and
    leaves it at 30; each tick is one run of the callback on its own
    variables; frames at 47 and 53.5 then fire with remainders 7 and 3.5
    and leave the last tick time at 40 and at 50.  With the 60 frames per
    second of [run], a last tick time of 33.333333333333336 and a
    notification at 50.1, the new last tick time is 50. *)
Theorem C2_residual_carry :
  (forall (C : Type) (cb : callback C) (fps : number) (now : Q)
          (w : World C),
      ticks (out (snd (start cb fps now w))) <> ticks (out w) ->
      then_ (sched (snd (start cb fps now w))) =
        nsub (Fin now) (nrem (nsub (Fin now) (then_ (sched w))) fps)) /\
  (forall (C : Type) (cb : callback C) (p t now d : Q) (w : World C),
      then_ (sched w) = Fin t -> 0 < p ->
      nsub (Fin now) (Fin t) = Fin d -> p < d ->
      exists (k : Z) (r : Q),
        (1 <= k)%Z /\ 0 <= r /\ r < p /\ d == inject_Z k * p + r /\
        then_ (sched (snd (start cb (Fin p) now w)))
          = nsub (Fin now) (Fin r) /\
        (is_double (now - r) ->
         exists v, then_ (sched (snd (start cb (Fin p) now w))) = Fin v /\
                   v == now - r)) /\
  (forall (C : Type) (cb : callback C) (c : C),
      leaves_host cb ->
      let w0 := snd (setAnimationFrame cb (Fin 10) 0 0 c fresh_host) in
      let w1 := frame cb (Fin 10) 0 w0 in
      let w2 := frame cb (Fin 10) 9 w1 in
      let w3 := frame cb (Fin 10) 21 w2 in
      let w4 := frame cb (Fin 10) 31 w3 in
      let w5 := frame cb (Fin 10) 47 w4 in
      let w6 := frame cb (Fin 10) (107 # 2) w5 in
      (ticks (out w1) = 0%nat /\ client w1 = c) /\
      (ticks (out w2) = 0%nat /\ then_ (sched w2) = Fin 0 /\
       client w2 = c) /\
      (ticks (out w3) = 1%nat /\ then_ (sched w3) = Fin 20 /\
       client w3 = fst (snd (cb (c, host w3)))) /\
      (ticks (out w4) = 2%nat /\ then_ (sched w4) = Fin 30 /\
       client w4 = fst (snd (cb (client w3, host w4)))) /\
      (ticks (out w5) = 3%nat /\ then_ (sched w5) = Fin 40 /\
       client w5 = fst (snd (cb (client w4, host w5)))) /\
      (ticks (out w6) = 4%nat /\ then_ (sched w6) = Fin 50 /\
       client w6 = fst (snd (cb (client w5, host w6))))) /\
  (forall (C : Type) (cb : callback C) (w : World C),
      then_ (sched w) = Fin (4691249611844267 # 140737488355328) ->
      ndiv (Fin 1000) (Fin 60) = Fin (4691249611844267 # 281474976710656) /\
      ticks (out (snd (start cb (ndiv (Fin 1000) (Fin 60))
                         (7050948166601933 # 140737488355328) w)))
        = S (ticks (out w)) /\
      then_ (sched (snd (start cb (ndiv (Fin 1000) (Fin 60))
                          (7050948166601933 # 140737488355328) w)))
        = Fin 50).
Proof.
  split; [|split; [|split]].
  - intros C cb fps now w Hfire.
    destruct (ngt (nsub (Fin now) (then_ (sched w))) fps) eqn:E.
    + now apply start_fire.
    + rewrite (start_skip cb fps now w E) in Hfire. now elim Hfire.
  - intros C cb p t now d w Ht Hp Hd Hpd.
    assert (E : ngt (nsub (Fin now) (then_ (sched w))) (Fin p) = true)
      by (rewrite Ht, Hd; now apply ngt_Fin).
    destruct (start_fire cb (Fin p) now w E) as (H1 & _).
    rewrite Ht, Hd in H1.
    destruct (nrem_exceeding d p Hp Hpd) as (k & r & Hk & Hr0 & Hrp & Hkr & Hrem).
    rewrite Hrem in H1.
    exists k, r. repeat split; try assumption.
    intros (v & Hv & Hvr). rewrite H1. unfold nsub.
    destruct (Qeq_bool r 0) eqn:Er.
    + apply Qeq_bool_iff in Er. exists now. split; [reflexivity|].
      rewrite Er. ring.
    + exists v. split; assumption.
  - intros C cb c Hl w0 w1 w2 w3 w4 w5 w6.
    assert (H0 : armed (host w0) /\ then_ (sched w0) = Fin 0 /\
                 out w0 = [] /\ client w0 = c).
    { unfold w0. rewrite setAnimationFrame_eq.
      rewrite start_skip by (vm_compute; reflexivity).
      split; [|repeat split].
      apply rearm_armed. reflexivity. }
    destruct H0 as (A0 & T0 & O0 & C0).
    destruct (frame_skip cb (Fin 10) 0 w0 A0 Hl) as (A1 & T1 & C1 & O1);
      [rewrite T0; vm_compute; reflexivity|].
    fold w1 in A1, T1, C1, O1. rewrite T0 in T1.
    destruct (frame_skip cb (Fin 10) 9 w1 A1 Hl) as (A2 & T2 & C2 & O2);
      [rewrite T1; vm_compute; reflexivity|].
    fold w2 in A2, T2, C2, O2. rewrite T1 in T2.
    destruct (frame_fire cb (Fin 10) 21 w2 A2 Hl) as (A3 & T3 & K3 & C3);
      [rewrite T2; vm_compute; reflexivity|].
    fold w3 in A3, T3, K3, C3.
    assert (T3' : then_ (sched w3) = Fin 20)
      by (rewrite T3, T2; vm_compute; reflexivity).
    destruct (frame_fire cb (Fin 10) 31 w3 A3 Hl) as (A4 & T4 & K4 & C4);
      [rewrite T3'; vm_compute; reflexivity|].
    fold w4 in A4, T4, K4, C4.
    assert (T4' : then_ (sched w4) = Fin 30)
      by (rewrite T4, T3'; vm_compute; reflexivity).
    destruct (frame_fire cb (Fin 10) 47 w4 A4 Hl) as (A5 & T5 & K5 & C5);
      [rewrite T4'; vm_compute; reflexivity|].
    fold w5 in A5, T5, K5, C5.
    assert (T5' : then_ (sched w5) = Fin 40)
      by (rewrite T5, T4'; vm_compute; reflexivity).
    destruct (frame_fire cb (Fin 10) (107 # 2) w5 A5 Hl)
      as (A6 & T6 & K6 & C6);
      [rewrite T5'; vm_compute; reflexivity|].
    fold w6 in A6, T6, K6, C6.
    assert (T6' : then_ (sched w6) = Fin 50)
      by (rewrite T6, T5'; vm_compute; reflexivity).
    rewrite C1, C0 in C2. rewrite C0 in C1.
    rewrite O1, O0 in O2. rewrite O0 in O1.
    rewrite O2 in K3. cbn [ticks filter List.length] in K3.
    rewrite K3 in K4. rewrite K4 in K5. rewrite K5 in K6.
    rewrite C2 in C3.
    rewrite O1, O2.
    repeat split; assumption || reflexivity.
  - intros C cb w Ht.
    assert (Hi : ndiv (Fin 1000) (Fin 60)
                 = Fin (4691249611844267 # 281474976710656))
      by (vm_compute; reflexivity).
    split; [exact Hi|]. rewrite Hi.
    assert (E : ngt (nsub (Fin (7050948166601933 # 140737488355328))
                       (then_ (sched w)))
                    (Fin (4691249611844267 # 281474976710656)) = true)
      by (rewrite Ht; vm_compute; reflexivity).
    destruct (start_fire cb _ _ w E) as (H1 & H2 & _).
    split; [exact H2|].
    rewrite H1, Ht. vm_compute. reflexivity.
Qed.

(** The notification at 21 of the claim's trace: the difference 21
    exceeds the interval 10, the remainder is 1 with two whole intervals,
    and the last tick time becomes 20. *)
Lemma C2_residual_carry_witness :
  (ticks (out (snd (start count_calls (Fin 10) 21
                      (mkWorld (mkSched (Fin 0) None None JUndefined)
                               0%nat fresh_host []))))
     <> ticks (@nil Obs) /\
   then_ (sched (snd (start count_calls (Fin 10) 21
                       (mkWorld (mkSched (Fin 0) None None JUndefined)
                                0%nat fresh_host [])))) = Fin 20) /\
  (0 < 10 /\ nsub (Fin 21) (Fin 0) = Fin 21 /\ 10 < 21 /\
   exists (k : Z) (r : Q),
     (1 <= k)%Z /\ 0 <= r /\ r < 10 /\ 21 == inject_Z k * 10 + r /\
     then_ (sched (snd (start count_calls (Fin 10) 21
                         (mkWorld (mkSched (Fin 0) None None JUndefined)
                                  0%nat fresh_host []))))
       = nsub (Fin 21) (Fin r)).
Proof.
  assert (H : ticks (out (snd (start count_calls (Fin 10) 21
                     (mkWorld (mkSched (Fin 0) None None JUndefined)
                              0%nat fresh_host []))))
              <> ticks (@nil Obs)) by (vm_compute; discriminate).
  split.
  - split; [exact H|].
    rewrite (proj1 C2_residual_carry nat count_calls (Fin 10) 21
               (mkWorld (mkSched (Fin 0) None None JUndefined)
                        0%nat fresh_host []) H).
    vm_compute. reflexivity.
  - assert (Hp : 0 < 10) by reflexivity.
    assert (Hd : 10 < 21) by reflexivity.
    split; [exact Hp|]. split; [reflexivity|]. split; [exact Hd|].
    destruct (proj1 (proj2 C2_residual_carry) nat count_calls 10 0 21 21
                (mkWorld (mkSched (Fin 0) None None JUndefined)
                         0%nat fresh_host []) eq_refl Hp eq_refl Hd)
      as (k & r & Hk & Hr0 & Hr1 & Hkr & Ht & _).
    exists k, r. repeat split; assumption.
Defined.

(** ** Exceptions of the callback *)

Lemma start_log_inv {C : Type} (cb : callback C) (fps : number) (now : Q)
    (w : World C) :
  throws_truthy cb ->
  log_inv (sched w) (out w) ->
  log_inv (sched (snd (start cb fps now w))) (out (snd (start cb fps now w))).
Proof.
  intros Htr Hinv. rewrite start_eq. cbv zeta.
  destruct (ngt _ fps); [|exact Hinv].
  destruct (cb _) as [[[]|err] [c h]] eqn:Ecb.
  - (* the call returned *)
    cbn [snd sched out]. destruct Hinv as [(He & Hf & Hl) | (He & pre & e & post & -> & Hf & Hl & Hp)].
    + left. rewrite failed_app, logs_app, Hf, Hl. auto.
    + right. split; [exact He|].
      exists pre, e, (post ++ [Called (Return tt)]).
      rewrite <- app_assoc. cbn [app]. rewrite logs_app, Hp. auto.
  - (* the call threw [err] *)
    pose proof (Htr _ _ _ Ecb) as Herr.
    destruct Hinv as [(He & Hf & Hl) | (He & pre & e & post & -> & Hf & Hl & Hp)];
      rewrite He; cbn [negb snd sched out].
    + right. split; [exact Herr|].
      exists (out w), err, []. auto.
    + right. split; [exact He|].
      exists pre, e, (post ++ [Called (Throw err)]).
      rewrite <- app_assoc. cbn [app]. rewrite logs_app, Hp. auto.
Qed.

Lemma frame_log_inv {C : Type} (cb : callback C) (fps : number) (now : Q)
    (w : World C) :
  throws_truthy cb ->
  log_inv (sched w) (out w) ->
  log_inv (sched (frame cb fps now w)) (out (frame cb fps now w)).
Proof.
  intro Htr. unfold frame. generalize (raf_pending (host w)) as ids.
  intro ids. revert w.
  induction ids as [|id ids IH]; intros w Hinv; simpl; [exact Hinv|].
  apply IH. unfold deliver.
  destruct (existsb _ _); [|exact Hinv].
  now apply start_log_inv.
Qed.

Lemma frames_log_inv {C : Type} (cb : callback C) (fps : number)
    (ts : list Q) (w : World C) :
  throws_truthy cb ->
  log_inv (sched w) (out w) ->
  log_inv (sched (frames cb fps ts w)) (out (frames cb fps ts w)).
Proof.
  intro Htr. unfold frames. revert w.
  induction ts as [|t ts IH]; intros w Hinv; simpl; [exact Hinv|].
  apply IH. now apply frame_log_inv.
Qed.

Lemma log_inv_first_failure (sc : Sched) (l : list Obs) :
  log_inv sc l -> first_failure_logged l.
Proof.
  intros [(_ & H) | (_ & H)]; [left | right]; exact H.
Qed.

Lemma first_failure_logged_once (l : list Obs) :
  first_failure_logged l -> (logs l <= 1)%nat.
Proof.
  intros [(_ & H) | (pre & e & post & -> & _ & Hl & Hp)].
  - lia.
  - rewrite logs_app, Hl. unfold logs in *. cbn. cbn in Hp. lia.
Qed.


Lemma throw_error_leaves_host : leaves_host throw_error.
Proof. intros c h. reflexivity. Qed.

Lemma throw_error_truthy : throws_truthy throw_error.
Proof.
  intros s e s' H. unfold throw_error, client_only in H.
  injection H as <- _. reflexivity.
Qed.

Lemma fresh_host_slot : slot_owns_pending fresh_host.
Proof. intros id []. Qed.



(** ** The loop driver *)

(** The arrow function of [run] when [update] asks to end, [destroy]
    returns and [stop] is bound. *)
Lemma tick_stops {T E : Type} (destroy : StarshipDestroy T)
    (update : StarshipUpdate T E) (l : Loop T E) (h : Host)
    (v : jsval) (st' st'' : T) (q' : list E) :
  update (state l, queue l) = (Return v, (st', q')) ->
  truthy v = true ->
  destroy st' = (Return tt, st'') ->
  stop_bound l = true ->
  tick destroy update (l, h) =
  (Return tt,
   (mkLoop st'' q' true
           (calls l ++ [CUpdate (Return v); CDestroy (Return tt)]),
    stop h)).
Proof.
  intros Hu Hv Hd Hb.
  unfold tick, bind, call_update, call_destroy, call_stop.
  cbn [fst snd]. rewrite Hu. rewrite Hv. cbn [fst snd state queue stop_bound calls].
  rewrite Hd. cbn [fst snd state queue stop_bound calls].
  rewrite Hb. rewrite <- app_assoc. reflexivity.
Qed.

(** The arrow function keeps the binding as it is, and leaves the host
    alone or, with [stop] bound, stops it. *)
Lemma tick_host {T E : Type} (destroy : StarshipDestroy T)
    (update : StarshipUpdate T E) (l : Loop T E) (h : Host) :
  stop_bound (fst (snd (tick destroy update (l, h)))) = stop_bound l /\
  (snd (snd (tick destroy update (l, h))) = h \/
   (stop_bound l = true /\ snd (snd (tick destroy update (l, h))) = stop h)).
Proof.
  unfold tick, bind, call_update, call_destroy, call_stop, ret.
  cbn [fst snd].
  destruct (update _) as [[v|e] [st q]];
    cbn [fst snd stop_bound state queue calls]; [|auto].
  destruct (truthy v); cbn [fst snd stop_bound state queue calls]; [|auto].
  destruct (destroy st) as [[u|e] st2];
    cbn [fst snd stop_bound state queue calls]; [|auto].
  destruct (stop_bound l); cbn [fst snd stop_bound]; auto.
Qed.

(** What holds of the world of a loop whose [stop] is bound: a request
    is pending and recorded in the slot, or none is pending. *)
Lemma frame_tick_inv {T E : Type} (destroy : StarshipDestroy T)
    (update : StarshipUpdate T E) (fps : number) (now : Q)
    (w : World (Loop T E)) :
  stop_bound (client w) = true ->
  armed (host w) \/ raf_pending (host w) = [] ->
  stop_bound (client (frame (tick destroy update) fps now w)) = true /\
  (armed (host (frame (tick destroy update) fps now w)) \/
   raf_pending (host (frame (tick destroy update) fps now w)) = []).
Proof.
  intros Hb [Ha | Hi].
  - rewrite (frame_armed (tick destroy update) fps now w Ha).
    set (w1 := mkWorld (sched w) (client w)
                 (mkHost (raf_next (host w)) [] (STARSHIP_TIMER (host w)))
                 (out w)).
    assert (Har : armed (rearm (host w1))) by now apply rearm_armed.
    destruct (ngt (nsub (Fin now) (then_ (sched w1))) fps) eqn:Egt.
    + destruct (start_fire (tick destroy update) fps now w1 Egt) as (_ & _ & -> & ->).
      destruct (tick_host destroy update (client w1) (rearm (host w1)))
        as (-> & [-> | (_ & ->)]).
      * split; [exact Hb | now left].
      * split; [exact Hb | right]. apply stop_clears.
        now apply armed_slot_owns.
    + rewrite (start_skip (tick destroy update) fps now w1 Egt). split; [exact Hb | now left].
  - rewrite (frame_idle (tick destroy update) fps now w Hi). auto.
Qed.

Lemma frames_tick_inv {T E : Type} (destroy : StarshipDestroy T)
    (update : StarshipUpdate T E) (fps : number) (ts : list Q)
    (w : World (Loop T E)) :
  stop_bound (client w) = true ->
  armed (host w) \/ raf_pending (host w) = [] ->
  stop_bound (client (frames (tick destroy update) fps ts w)) = true /\
  (armed (host (frames (tick destroy update) fps ts w)) \/
   raf_pending (host (frames (tick destroy update) fps ts w)) = []).
Proof.
  unfold frames. revert w.
  induction ts as [|t ts IH]; intros w Hb Hh; simpl; [auto|].
  destruct (frame_tick_inv destroy update fps t w Hb Hh) as (Hb' & Hh').
  now apply IH.
Qed.

(** When [init] returns, [run] returns, with [stop] bound and a request
    pending and recorded in the slot. *)
Lemma run_returns {T E : Type} (config : StarshipConfig) (st : T)
    (destroy : StarshipDestroy T) (update : StarshipUpdate T E)
    (t0 t1 : Q) (h : Host) :
  slot_owns_pending h ->
  exists w0,
    run config (Return st) destroy update t0 t1 h = Return w0 /\
    stop_bound (client w0) = true /\ armed (host w0).
Proof.
  intro Hs. unfold run.
  pose proof (start_returns (tick destroy update) (interval config) t1
                (mkWorld (mkSched (Fin t0) None None JUndefined)
                         (mkLoop st [] false []) (stop h) [])) as Hr.
  rewrite setAnimationFrame_eq.
  set (w1 := mkWorld _ _ _ _) in *.
  destruct (start _ _ _ w1) as [r w] eqn:Es. cbn [fst] in Hr. subst r.
  exists (bind_stop w). split; [reflexivity|]. split; [reflexivity|].
  cbn [bind_stop host].
  change w with (snd (Return tt, w)). rewrite <- Es.
  assert (Hp : raf_pending (host w1) = []) by (now apply stop_clears).
  destruct (ngt (nsub (Fin t1) (then_ (sched w1))) (interval config)) eqn:Egt.
  - destruct (start_fire (tick destroy update) _ t1 w1 Egt) as (_ & _ & _ & ->).
    destruct (tick_host destroy update (client w1) (rearm (host w1)))
      as (_ & [-> | (Hb & _)]).
    + now apply rearm_armed.
    + discriminate Hb.
  - rewrite (start_skip (tick destroy update) _ t1 w1 Egt). now apply rearm_armed.
Qed.

(** X21.  Let [run] have returned the world [w0] (so [stop] is bound) on
    a host whose pending request, if any, is the one in the timer slot,
    let [w] be that world after any frames, and let the next frame, at
    [now], invoke the callback with [update] returning a truthy value and
    [destroy] returning normally.  Then that frame calls [update] once
    and [destroy] once, no request is pending afterwards, and every later
    sequence of frames leaves the world as it is: no further call of
    [update] or [destroy].  More generally, once [stop] has run on a host
    whose pending request is the one in the timer slot, no sequence of
    frames invokes any callback. *)
Theorem X21_truthy_update_stops_loop {T E : Type} (config : StarshipConfig)
    (st : T) (destroy : StarshipDestroy T) (update : StarshipUpdate T E)
    (t0 t1 : Q) (h : Host) (ts : list Q) (now : Q)
    (w0 : World (Loop T E)) (v : jsval) (st' st'' : T) (q' : list E)
    (Hslot : slot_owns_pending h)
    (Hrun : run config (Return st) destroy update t0 t1 h = Return w0)
    (Htick :
       ticks (out (loop_frames config destroy update (ts ++ [now]) w0)) <>
       ticks (out (loop_frames config destroy update ts w0)))
    (Hupd :
       update (state (client (loop_frames config destroy update ts w0)),
               queue (client (loop_frames config destroy update ts w0)))
       = (Return v, (st', q')))
    (Hv : truthy v = true)
    (Hdes : destroy st' = (Return tt, st'')) :
  calls (client (loop_frames config destroy update (ts ++ [now]) w0)) =
    calls (client (loop_frames config destroy update ts w0))
      ++ [CUpdate (Return v); CDestroy (Return tt)] /\
  raf_pending (host (loop_frames config destroy update (ts ++ [now]) w0))
    = [] /\
  (forall ts',
      loop_frames config destroy update ((ts ++ [now]) ++ ts') w0 =
      loop_frames config destroy update (ts ++ [now]) w0) /\
  (forall (C : Type) (cb : callback C) (fps : number) (ts' : list Q)
          (w : World C),
      slot_owns_pending (host w) ->
      frames cb fps ts'
        (mkWorld (sched w) (client w) (stop (host w)) (out w)) =
      mkWorld (sched w) (client w) (stop (host w)) (out w)).
Proof.
  destruct (run_returns config st destroy update t0 t1 h Hslot)
    as (w0' & Hrun' & Hb0 & Ha0).
  rewrite Hrun in Hrun'. injection Hrun' as <-.
  unfold loop_frames in *.
  destruct (frames_tick_inv destroy update (interval config) ts w0 Hb0
              (or_introl Ha0)) as (Hb & Hh).
  rewrite !frames_app, !frames_one in *.
  set (w := frames (tick destroy update) (interval config) ts w0) in *.
  assert (Hstep :
    calls (client (frame (tick destroy update) (interval config) now w)) =
      calls (client w) ++ [CUpdate (Return v); CDestroy (Return tt)] /\
    raf_pending (host (frame (tick destroy update) (interval config) now w))
      = []).
  { destruct Hh as [Ha | Hi].
    - rewrite (frame_armed (tick destroy update) (interval config) now w Ha) in *.
      set (w1 := mkWorld (sched w) (client w)
                   (mkHost (raf_next (host w)) []
                           (STARSHIP_TIMER (host w))) (out w)) in *.
      destruct (ngt (nsub (Fin now) (then_ (sched w1))) (interval config))
        eqn:Egt.
      + destruct (start_fire (tick destroy update) (interval config) now w1 Egt)
          as (_ & _ & -> & ->).
        rewrite (tick_stops destroy update (client w1) (rearm (host w1))
                   v st' st'' q' Hupd Hv Hdes Hb).
        cbn [fst snd calls]. split; [reflexivity|].
        apply stop_clears, armed_slot_owns, rearm_armed. reflexivity.
      + rewrite (start_skip (tick destroy update) (interval config) now w1 Egt) in Htick.
        now elim Htick.
    - rewrite (frame_idle (tick destroy update) (interval config) now w Hi) in Htick.
      now elim Htick. }
  destruct Hstep as (Hc & Hp).
  split; [exact Hc|]. split; [exact Hp|]. split.
  - intro ts'. rewrite !frames_app, !frames_one. fold w.
    apply (frames_idle (tick destroy update) (interval config) ts' _ Hp).
  - intros C cb fps ts' w' Hs. apply frames_idle. cbn [host].
    now apply stop_clears.
Qed.

Lemma X21_truthy_update_stops_loop_witness :
  slot_owns_pending fresh_host /\
  (exists w0,
      run sample_config (Return 0%nat) destroy_ok update_second 0 0
          fresh_host = Return w0 /\
      calls (client (loop_frames sample_config destroy_ok update_second
                       ([20] ++ [40]) w0)) =
        calls (client (loop_frames sample_config destroy_ok update_second
                         [20] w0))
          ++ [CUpdate (Return (JBool true)); CDestroy (Return tt)] /\
      raf_pending (host (loop_frames sample_config destroy_ok update_second
                           ([20] ++ [40]) w0)) = []).
Proof.
  split; [exact fresh_host_slot|].
  set (w0 := bind_stop
               (snd (setAnimationFrame (tick destroy_ok update_second)
                       (interval sample_config) 0 0
                       (mkLoop 0%nat [] false []) fresh_host))).
  assert (Hrun : run sample_config (Return 0%nat) destroy_ok update_second
                     0 0 fresh_host = Return w0)
    by (vm_compute; reflexivity).
  assert (Htick :
    ticks (out (loop_frames sample_config destroy_ok update_second
                  ([20] ++ [40]) w0)) <>
    ticks (out (loop_frames sample_config destroy_ok update_second [20]
                  w0))) by (vm_compute; discriminate).
  assert (Hupd :
    update_second
      (state (client (loop_frames sample_config destroy_ok update_second
                        [20] w0)),
       queue (client (loop_frames sample_config destroy_ok update_second
                        [20] w0)))
    = (Return (JBool true), (2%nat, []))) by (vm_compute; reflexivity).
  exists w0. split; [exact Hrun|].
  destruct (X21_truthy_update_stops_loop sample_config 0%nat destroy_ok
              update_second 0 0 fresh_host [20] 40 w0 (JBool true)
              2%nat 2%nat [] fresh_host_slot Hrun Htick Hupd eq_refl
              eq_refl) as (Hc & Hp & _).
  split; [exact Hc | exact Hp].
Defined.

(** C5.  The code at two inputs on which it does not do what the claim
    says.  When [destroy] throws: with the default 60 frames per second
    and frames at 20 and 40, [update] returns true in the first tick,
    [destroy] throws inside the scheduler's try block, [stop] is not
    reached, and the second tick calls [update] and [destroy] again; a
    request is still pending.  And when the first, direct call of [start]
    already fires (here the two clock readings of [setAnimationFrame] are
    0 and 20): [update] returns true and [destroy] returns, but [stop]
    has no value yet, the reference throws and is logged, and the frame
    at 40 calls [update] and [destroy] a second time. *)
Theorem C5_destroy_runs_again :
  (exists w0,
    run sample_config (Return 0%nat) destroy_throws update_always 0 0
        fresh_host = Return w0 /\
    calls (client (loop_frames sample_config destroy_throws update_always
                     [20; 40] w0)) =
      [CUpdate (Return (JBool true)); CDestroy (Throw (JObj "Error"));
       CUpdate (Return (JBool true)); CDestroy (Throw (JObj "Error"))] /\
    raf_pending (host (loop_frames sample_config destroy_throws
                         update_always [20; 40] w0)) = [3%nat]) /\
  (exists w0,
    run sample_config (Return 0%nat) destroy_ok update_always 0 20
        fresh_host = Return w0 /\
    calls (client w0) =
      [CUpdate (Return (JBool true)); CDestroy (Return tt)] /\
    out w0 = [Called (Throw (JObj "ReferenceError"));
              Logged (JObj "ReferenceError")] /\
    calls (client (loop_frames sample_config destroy_ok update_always
                     [40] w0)) =
      [CUpdate (Return (JBool true)); CDestroy (Return tt);
       CUpdate (Return (JBool true)); CDestroy (Return tt)]).
Proof.
  split.
  - exists (bind_stop
              (snd (setAnimationFrame (tick destroy_throws update_always)
                      (interval sample_config) 0 0
                      (mkLoop 0%nat [] false []) fresh_host))).
    vm_compute. repeat split.
  - exists (bind_stop
              (snd (setAnimationFrame (tick destroy_ok update_always)
                      (interval sample_config) 0 20
                      (mkLoop 0%nat [] false []) fresh_host))).
    vm_compute. repeat split.
Qed.

(* ================================================================== *)
(** * Further properties of the scheduler, the loop and the buttons *)

(** ** Frames and invariants *)

(** A property of the scheduler's variables, the callback's variables and
    the trace that every notification keeps is kept by every sequence of
    frames whose clock readings are admissible. *)
Lemma frames_invariant {C : Type} (cb : callback C) (fps : number)
    (ok : Q -> Prop) (P : World C -> Prop) :
  (forall w h, P w -> P (mkWorld (sched w) (client w) h (out w))) ->
  (forall now w, ok now -> P w -> P (snd (start cb fps now w))) ->
  forall ts w, Forall ok ts -> P w -> P (frames cb fps ts w).
Proof.
  intros Hhost Hstart. unfold frames.
  induction ts as [|t ts IH]; intros w Hts Hw; simpl; [exact Hw|].
  inversion Hts as [|? ? Ht Hts']; subst.
  apply IH; [exact Hts'|]. unfold frame.
  generalize (raf_pending (host w)) as ids. intro ids. revert w Hw.
  induction ids as [|id ids IHids]; intros w Hw; simpl; [exact Hw|].
  apply IHids. unfold deliver.
  destruct (existsb _ _); [|exact Hw].
  apply Hstart; [exact Ht|]. now apply Hhost.
Qed.

Lemma inject_nat_succ (n : nat) :
  inject_Z (Z.of_nat (S n)) == inject_Z (Z.of_nat n) + 1.
Proof.
  rewrite Nat2Z.inj_succ. unfold Z.succ. rewrite inject_Z_plus.
  reflexivity.
Qed.

(** X3.  Starting a scheduler on a host whose pending request, if any, is
    the one recorded in the timer slot (a fresh host, or one on which an
    earlier loop is running) cancels that request: afterwards the only
    pending request is the new one, and the slot holds its handle. *)
Theorem X3_restart_replaces_request {C : Type} (cb : callback C)
    (fps : number) (t0 t1 : Q) (c : C) (h : Host)
    (Hhost : leaves_host cb) (Hslot : slot_owns_pending h) :
  raf_pending (host (snd (setAnimationFrame cb fps t0 t1 c h)))
    = [raf_next h] /\
  STARSHIP_TIMER (host (snd (setAnimationFrame cb fps t0 t1 c h)))
    = Some (raf_next h) /\
  (forall old, In old (raf_pending h) -> old <> raf_next h ->
     ~ In old (raf_pending
                 (host (snd (setAnimationFrame cb fps t0 t1 c h))))).
Proof.
  rewrite setAnimationFrame_eq, start_host by exact Hhost.
  cbn [host]. pose proof (stop_clears h Hslot) as Hp.
  assert (Hn : raf_next (stop h) = raf_next h).
  { unfold stop, cancelAnimationFrame.
    destruct (STARSHIP_TIMER h); reflexivity. }
  unfold rearm, set_timer, requestAnimationFrame.
  cbn [snd raf_pending STARSHIP_TIMER raf_next]. rewrite Hp, Hn.
  split; [reflexivity|]. split; [reflexivity|].
  intros old _ Hne [Heq | []]. now apply Hne.
Qed.

Lemma X3_restart_replaces_request_witness :
  leaves_host count_calls /\
  slot_owns_pending (mkHost 8 [7%nat] (Some 7%nat)) /\
  raf_pending (host (snd (setAnimationFrame count_calls (Fin 10) 0 0 0%nat
                            (mkHost 8 [7%nat] (Some 7%nat))))) = [8%nat].
Proof.
  assert (Hl : leaves_host count_calls) by (intros c h; reflexivity).
  assert (Hs : slot_owns_pending (mkHost 8 [7%nat] (Some 7%nat))).
  { intros id [<- | []]. reflexivity. }
  split; [exact Hl|]. split; [exact Hs|].
  apply (X3_restart_replaces_request count_calls (Fin 10) 0 0 0%nat
           (mkHost 8 [7%nat] (Some 7%nat)) Hl Hs).
Defined.

(** ** The loop driver, continued *)

(** What [run] returns when [init] returns. *)
Lemma run_eq {T E : Type} (config : StarshipConfig) (st : T)
    (destroy : StarshipDestroy T) (update : StarshipUpdate T E)
    (t0 t1 : Q) (h : Host) :
  run config (Return st) destroy update t0 t1 h =
  Return (bind_stop
            (snd (start (tick destroy update) (interval config) t1
                    (mkWorld (mkSched (Fin t0) None None JUndefined)
                             (mkLoop st [] false []) (stop h) [])))).
Proof.
  unfold run. rewrite setAnimationFrame_eq.
  pose proof (start_returns (tick destroy update) (interval config) t1
                (mkWorld (mkSched (Fin t0) None None JUndefined)
                         (mkLoop st [] false []) (stop h) [])) as Hr.
  destruct (start _ _ _ _) as [r w]. cbn [fst] in Hr. subst r.
  reflexivity.
Qed.

(** After a notification the callback's variables are as before, or as
    one call of the callback left them. *)
Lemma start_client {C : Type} (cb : callback C) (fps : number) (now : Q)
    (w : World C) :
  client (snd (start cb fps now w)) = client w \/
  client (snd (start cb fps now w)) =
    fst (snd (cb (client w, rearm (host w)))).
Proof.
  destruct (ngt (nsub (Fin now) (then_ (sched w))) fps) eqn:Egt.
  - right. now destruct (start_fire cb fps now w Egt) as (_ & _ & -> & _).
  - left. now rewrite (start_skip cb fps now w Egt).
Qed.

(** A property of the callback's variables that each call of the callback
    keeps is kept by every sequence of frames. *)
Lemma frames_client_invariant {C : Type} (cb : callback C) (fps : number)
    (P : C -> Prop) :
  (forall c h, P c -> P (fst (snd (cb (c, h))))) ->
  forall ts w, P (client w) -> P (client (frames cb fps ts w)).
Proof.
  intros Hcb ts w Hw.
  apply (frames_invariant cb fps (fun _ => True) (fun w' => P (client w'))).
  - intros w' h' Hw'. exact Hw'.
  - intros now w' _ Hw'.
    destruct (start_client cb fps now w') as [-> | ->];
      [exact Hw' | now apply Hcb].
  - clear. induction ts; constructor; auto.
  - exact Hw.
Qed.

Lemma ngt_never (fps : number) :
  fps = PInf \/ fps = NaN -> forall d, ngt d fps = false.
Proof. intros [-> | ->] [q| | | |]; reflexivity. Qed.

Lemma interval_never (config : StarshipConfig) :
  fps config = Some NaN \/
  (exists q, fps config = Some (Fin q) /\ q == 0) ->
  interval config = PInf \/ interval config = NaN.
Proof.
  unfold interval. intros [-> | (q & -> & Hq)].
  - now right.
  - left. unfold ndiv. cbn [num_inf num_zero num_neg].
    apply Qeq_bool_iff in Hq. rewrite Hq.
    assert (Hn : Qlt_bool q 0 = false).
    { apply Qlt_bool_false_iff. apply Qeq_bool_iff in Hq. rewrite Hq.
      apply Qle_refl. }
    rewrite Hn. reflexivity.
Qed.

(** Every value but NaN and the negative infinity exceeds the negative
    infinity. *)
Lemma ngt_NInf (d : number) : d <> NaN -> d <> NInf -> ngt d NInf = true.
Proof. destruct d; intros H1 H2; try reflexivity; congruence. Qed.

(** The difference of two clock readings in their order is not negative. *)
Lemma nsub_ordered (t0 t1 : Q) :
  t0 <= t1 ->
  nsub (Fin t1) (Fin t0) <> NaN /\ nsub (Fin t1) (Fin t0) <> NInf.
Proof.
  intro Hle. unfold nsub.
  destruct (Qeq_bool t0 0); [split; discriminate|].
  split; [apply RN_not_NaN|].
  assert (H0 : 0 <= t1 - t0) by lra.
  pose proof (RN_mono 0 (t1 - t0) H0) as Hm.
  intro E. rewrite E in Hm. discriminate Hm.
Qed.

(** X4.  With [fps: 0], the positive zero, in the configuration the
    interval [1000 / fps] is the positive infinity, and with [fps: NaN]
    it is NaN; in both cases no comparison [delta > fps] succeeds: [run]
    returns, and neither [run] nor any sequence of frames ever calls
    [update] or [destroy].  With [fps: -0] the interval is the negative
    infinity, which the difference of two clock readings taken in their
    order exceeds: the first notification, the one inside [run], already
    calls [update]. *)
Theorem X4_zero_fps_never_updates {T E : Type} (config : StarshipConfig)
    (st : T) (destroy : StarshipDestroy T) (update : StarshipUpdate T E)
    (t0 t1 : Q) (h : Host) (ts : list Q) :
  (fps config = Some NaN \/
   (exists q, fps config = Some (Fin q) /\ q == 0) ->
   exists w0,
     run config (Return st) destroy update t0 t1 h = Return w0 /\
     calls (client (loop_frames config destroy update ts w0)) = [] /\
     out (loop_frames config destroy update ts w0) = []) /\
  (fps config = Some NZ -> t0 <= t1 ->
   interval config = NInf /\
   exists w0,
     run config (Return st) destroy update t0 t1 h = Return w0 /\
     ticks (out w0) = 1%nat).
Proof.
  split.
  - intro Hfps.
    pose proof (ngt_never _ (interval_never config Hfps)) as Hn.
    eexists. split; [apply run_eq|].
    rewrite start_skip by apply Hn.
    unfold loop_frames.
    apply (frames_invariant (tick destroy update) (interval config)
             (fun _ => True)
             (fun w' => calls (client w') = [] /\ out w' = [])).
    + intros w' h' Hw'. exact Hw'.
    + intros now w' _ Hw'. now rewrite start_skip by apply Hn.
    + clear. induction ts; constructor; auto.
    + split; reflexivity.
  - intros Hfps Hle.
    assert (Hi : interval config = NInf)
      by (unfold interval; rewrite Hfps; reflexivity).
    split; [exact Hi|].
    eexists. split; [apply run_eq|].
    cbn [bind_stop out]. rewrite Hi.
    destruct (nsub_ordered t0 t1 Hle) as [H1 H2].
    destruct (start_fire (tick destroy update) NInf t1
                (mkWorld (mkSched (Fin t0) None None JUndefined)
                         (mkLoop st [] false []) (stop h) []))
      as (_ & Hk & _); [now apply ngt_NInf|].
    exact Hk.
Qed.

Lemma X4_zero_fps_never_updates_witness :
  (exists w0,
    run (mkConfig "game" (Vector2.mk (Fin 320) (Fin 240)) None
                  (Some (Fin 0)))
        (Return 0%nat) destroy_ok update_always 0 0 fresh_host = Return w0 /\
    calls (client (loop_frames
                     (mkConfig "game" (Vector2.mk (Fin 320) (Fin 240)) None
                               (Some (Fin 0)))
                     destroy_ok update_always [1000; 2000] w0)) = [] /\
    out (loop_frames
           (mkConfig "game" (Vector2.mk (Fin 320) (Fin 240)) None
                     (Some (Fin 0)))
           destroy_ok update_always [1000; 2000] w0) = []) /\
  (exists w0,
    run (mkConfig "game" (Vector2.mk (Fin 320) (Fin 240)) None (Some NZ))
        (Return 0%nat) destroy_ok update_never 0 0 fresh_host = Return w0 /\
    ticks (out w0) = 1%nat).
Proof.
  split.
  - apply (proj1 (X4_zero_fps_never_updates
                    (mkConfig "game" (Vector2.mk (Fin 320) (Fin 240)) None
                              (Some (Fin 0)))
                    0%nat destroy_ok update_always 0 0 fresh_host
                    [1000; 2000])).
    right. exists 0. split; reflexivity.
  - apply (proj2 (X4_zero_fps_never_updates
                    (mkConfig "game" (Vector2.mk (Fin 320) (Fin 240)) None
                              (Some NZ))
                    0%nat destroy_ok update_never 0 0 fresh_host [])
             eq_refl).
    apply Qle_refl.
Defined.

(** One call of the arrow function of [run] extends the call log by one
    well-formed block. *)
Lemma tick_calls_ok {T E : Type} (destroy : StarshipDestroy T)
    (update : StarshipUpdate T E) (l : Loop T E) (h : Host) :
  calls_ok (calls l) ->
  calls_ok (calls (fst (snd (tick destroy update (l, h))))).
Proof.
  intro Hok.
  unfold tick, bind, call_update, call_destroy, call_stop, ret.
  cbn [fst snd].
  destruct (update _) as [[v|e] [st q]];
    cbn [fst snd stop_bound state queue calls].
  - destruct (truthy v) eqn:Ev; cbn [fst snd stop_bound state queue calls].
    + destruct (destroy st) as [[u|e] st2];
        cbn [fst snd stop_bound state queue calls].
      * destruct (stop_bound l); cbn [fst snd calls];
          rewrite <- app_assoc; now apply calls_ok_end.
      * rewrite <- app_assoc. now apply calls_ok_end.
    + apply calls_ok_go; [exact Hok|]. intros v' [= <-]. exact Ev.
  - apply calls_ok_go; [exact Hok|]. intros v' [=].
Qed.

(** X5.  In the call log of a loop started by [run], after any sequence
    of frames: every call of [destroy] comes directly after a call of
    [update] that returned a truthy value, every such call of [update] is
    directly followed by a call of [destroy], and an [update] that threw
    or returned a falsy value is followed by no [destroy]. *)
Theorem X5_destroy_follows_truthy_update {T E : Type}
    (config : StarshipConfig) (st : T) (destroy : StarshipDestroy T)
    (update : StarshipUpdate T E) (t0 t1 : Q) (h : Host) (ts : list Q)
    (w0 : World (Loop T E))
    (Hrun : run config (Return st) destroy update t0 t1 h = Return w0) :
  calls_ok (calls (client (loop_frames config destroy update ts w0))).
Proof.
  rewrite run_eq in Hrun. injection Hrun as <-.
  unfold loop_frames.
  apply (frames_client_invariant (tick destroy update) (interval config)
           (fun c => calls_ok (calls c))).
  - intros c h'. apply tick_calls_ok.
  - cbn [bind_stop client calls].
    destruct (start_client (tick destroy update) (interval config) t1
                (mkWorld (mkSched (Fin t0) None None JUndefined)
                         (mkLoop st [] false []) (stop h) []))
      as [-> | ->].
    + constructor.
    + apply tick_calls_ok. constructor.
Qed.

Lemma X5_destroy_follows_truthy_update_witness :
  calls_ok
    (calls (client
              (loop_frames sample_config destroy_throws update_always
                 [20; 40]
                 (bind_stop
                    (snd (setAnimationFrame
                            (tick destroy_throws update_always)
                            (interval sample_config) 0 0
                            (mkLoop 0%nat [] false []) fresh_host)))))).
Proof.
  apply (X5_destroy_follows_truthy_update sample_config 0%nat destroy_throws
           update_always 0 0 fresh_host [20; 40]).
  vm_compute. reflexivity.
Defined.

Lemma tick_never_ends {T E : Type} (destroy : StarshipDestroy T)
    (update : StarshipUpdate T E) (l : Loop T E) (h : Host) :
  never_ends update ->
  snd (snd (tick destroy update (l, h))) = h /\
  (existsb is_destroy (calls l) = false ->
   existsb is_destroy (calls (fst (snd (tick destroy update (l, h)))))
     = false).
Proof.
  intro Hne.
  unfold tick, bind, call_update, call_destroy, call_stop, ret.
  cbn [fst snd].
  destruct (update _) as [[v|e] [st q]] eqn:Eu;
    cbn [fst snd stop_bound state queue calls].
  - rewrite (Hne _ _ _ Eu). cbn [fst snd calls].
    split; [reflexivity|]. intro H. rewrite existsb_app, H. reflexivity.
  - split; [reflexivity|]. intro H. rewrite existsb_app, H. reflexivity.
Qed.

(** X6.  While [update] never returns a truthy value (it may throw), a
    loop started by [run] never stops by itself and never calls
    [destroy]: after any sequence of frames one request is pending and
    recorded in the timer slot, and the call log holds no [destroy]. *)
Theorem X6_loop_runs_while_update_falsy {T E : Type}
    (config : StarshipConfig) (st : T) (destroy : StarshipDestroy T)
    (update : StarshipUpdate T E) (t0 t1 : Q) (h : Host) (ts : list Q)
    (w0 : World (Loop T E))
    (Hnever : never_ends update) (Hslot : slot_owns_pending h)
    (Hrun : run config (Return st) destroy update t0 t1 h = Return w0) :
  armed (host (loop_frames config destroy update ts w0)) /\
  existsb is_destroy
    (calls (client (loop_frames config destroy update ts w0))) = false.
Proof.
  assert (Hl : leaves_host (tick destroy update)).
  { intros c h'. now apply tick_never_ends. }
  destruct (run_returns config st destroy update t0 t1 h Hslot)
    as (w0' & Hrun' & _ & Ha0).
  rewrite Hrun in Hrun'. injection Hrun' as <-.
  unfold loop_frames. split.
  - now apply frames_armed.
  - apply (frames_client_invariant (tick destroy update) (interval config)
             (fun c => existsb is_destroy (calls c) = false)).
    + intros c h'. now apply tick_never_ends.
    + rewrite run_eq in Hrun. injection Hrun as <-.
      cbn [bind_stop client calls].
      destruct (start_client (tick destroy update) (interval config) t1
                  (mkWorld (mkSched (Fin t0) None None JUndefined)
                           (mkLoop st [] false []) (stop h) []))
        as [-> | ->].
      * reflexivity.
      * now apply tick_never_ends.
Qed.

Lemma update_never_never_ends : never_ends update_never.
Proof. intros s v s' H. injection H as <- _. reflexivity. Qed.

Lemma X6_loop_runs_while_update_falsy_witness :
  never_ends update_never /\ slot_owns_pending fresh_host /\
  armed (host (loop_frames sample_config destroy_ok update_never
                 [20; 40; 60]
                 (bind_stop
                    (snd (setAnimationFrame (tick destroy_ok update_never)
                            (interval sample_config) 0 0
                            (mkLoop 0%nat [] false []) fresh_host))))).
Proof.
  split; [exact update_never_never_ends|].
  split; [exact fresh_host_slot|].
  apply (X6_loop_runs_while_update_falsy sample_config 0%nat destroy_ok
           update_never 0 0 fresh_host [20; 40; 60] _
           update_never_never_ends fresh_host_slot).
  vm_compute. reflexivity.
Defined.

(** ** The input state tracker, continued *)

Lemma keyToButton_label (k : string) (b : Button.t) :
  keyToButton k = Some b -> In k case_labels.
Proof.
  intro H. destruct (in_dec string_dec k case_labels) as [Hin | Hnin];
    [exact Hin|].
  apply keyToButton_None_iff in Hnin. congruence.
Qed.

(** X7.  The key table is one-to-one and onto: two key strings that give
    the same button are the same string, every button is given by some
    key, every key that gives a button is one of the eight labels, and
    the numeric value of every button is truthy, so the guard [if (btn)]
    of the handlers lets every mapped key through. *)
Theorem X7_key_table_bijective :
  (forall k k' b,
      keyToButton k = Some b -> keyToButton k' = Some b -> k = k') /\
  (forall b, exists k, keyToButton k = Some b) /\
  (forall k b, keyToButton k = Some b ->
               In k case_labels /\ button_truthy b = true) /\
  (forall b b', Button.code b = Button.code b' -> b = b').
Proof.
  split; [|split; [|split]].
  - intros k k' b Hk Hk'.
    pose proof (keyToButton_label k b Hk) as Hin.
    pose proof (keyToButton_label k' b Hk') as Hin'.
    unfold case_labels in Hin, Hin'. simpl in Hin, Hin'.
    repeat match goal with
           | H : _ \/ _ |- _ => destruct H as [H | H]
           | H : False |- _ => destruct H
           end; subst; try reflexivity;
      vm_compute in Hk, Hk'; congruence.
  - apply every_button_mapped.
  - intros k b Hk. split; [now apply (keyToButton_label k b)|].
    apply button_truthy_all.
  - intros b b'. destruct b, b'; simpl; intro H;
      try reflexivity; discriminate.
Qed.

Lemma set_set_other (s : ButtonState) (b b' : Button.t) (v v' : Q) :
  b <> b' -> set (set s b v) b' v' = set (set s b' v') b v.
Proof.
  intro H. destruct s, b, b'; try reflexivity; congruence.
Qed.

(** What a handler does: nothing for an unmapped key; for a key of button
    [b] it reads the slot of [b] and keeps the state or writes that slot. *)
Lemma handle_effect (e : KeyEvent) :
  (keyToButton (event_key e) = None /\ forall s, handle s e = s) \/
  (exists (b : Button.t) (f : Q -> option Q),
      keyToButton (event_key e) = Some b /\
      forall s, handle s e =
                match f (get s b) with
                | Some v => set s b v
                | None => s
                end).
Proof.
  destruct e as [k now | k]; cbn [event_key handle];
    unfold onkeydown, onkeyup;
    (destruct (keyToButton k) as [b|]; [right | left; auto]).
  - exists b, (fun v => if Qeq_bool v 0 then Some now else None).
    split; [reflexivity|]. intro s. rewrite button_truthy_all.
    cbn [andb]. now destruct (Qeq_bool (get s b) 0).
  - exists b, (fun _ => Some 0). split; [reflexivity|].
    intro s. now rewrite button_truthy_all.
Qed.

(** X8.  Keyboard events for different buttons commute: when the keys of
    two events do not give the same button, handling them in either
    order leaves the same button state. *)
Theorem X8_events_of_different_buttons_commute (s : ButtonState)
    (e1 e2 : KeyEvent)
    (Hdiff : forall b, keyToButton (event_key e1) = Some b ->
                       keyToButton (event_key e2) <> Some b) :
  handle (handle s e1) e2 = handle (handle s e2) e1.
Proof.
  destruct (handle_effect e1) as [(_ & H1) | (b1 & f1 & Hk1 & H1)].
  { now rewrite !H1. }
  destruct (handle_effect e2) as [(_ & H2) | (b2 & f2 & Hk2 & H2)].
  { now rewrite !H2. }
  assert (Hne : b1 <> b2).
  { intros ->. now apply (Hdiff b2). }
  assert (Hne' : b2 <> b1) by congruence.
  assert (G1 : get (handle s e2) b1 = get s b1).
  { rewrite H2. destruct (f2 (get s b2)); [|reflexivity].
    now apply get_set_other. }
  assert (G2 : get (handle s e1) b2 = get s b2).
  { rewrite H1. destruct (f1 (get s b1)); [|reflexivity].
    now apply get_set_other. }
  rewrite (H2 (handle s e1)), G2, (H1 (handle s e2)), G1, H1, H2.
  destruct (f1 (get s b1)) as [v1|], (f2 (get s b2)) as [v2|];
    try reflexivity.
  now apply set_set_other.
Qed.

Lemma X8_events_of_different_buttons_commute_witness :
  handle (handle (onkeydown "x" 3 BUTTONS) (KeyDown "z" 5)) (KeyUp "x") =
  handle (handle (onkeydown "x" 3 BUTTONS) (KeyUp "x")) (KeyDown "z" 5).
Proof.
  apply (X8_events_of_different_buttons_commute (onkeydown "x" 3 BUTTONS)
           (KeyDown "z" 5) (KeyUp "x")).
  intros b Hb. vm_compute in Hb. injection Hb as <-.
  vm_compute. discriminate.
Defined.

(** X9.  A key-down of a released button at a positive clock reading
    makes [isButtonDown] true for it; a key-up makes it false whatever the
    state; neither changes [isButtonDown] of any other button; and a
    key-down that reads the clock value 0 leaves the button reported as
    not down. *)
Theorem X9_down_after_press_up_after_release (k : string) (b : Button.t)
    (s : ButtonState) (now : Q)
    (Hk : keyToButton k = Some b) (H0 : get s b == 0) :
  (0 < now -> isButtonDown b (onkeydown k now s) = true) /\
  (now == 0 -> isButtonDown b (onkeydown k now s) = false) /\
  (forall s', isButtonDown b (onkeyup k s') = false) /\
  (forall b', b' <> b ->
     isButtonDown b' (onkeydown k now s) = isButtonDown b' s /\
     isButtonDown b' (onkeyup k s) = isButtonDown b' s).
Proof.
  unfold isButtonDown.
  rewrite (onkeydown_released k b now s Hk H0).
  repeat split.
  - intro Hn. rewrite get_set_same. now apply Qlt_bool_iff.
  - intro Hn. rewrite get_set_same. apply Qlt_bool_false_iff.
    rewrite Hn. apply Qle_refl.
  - intro s'. rewrite (onkeyup_mapped k b s' Hk), get_set_same.
    reflexivity.
  - now rewrite get_set_other.
  - now rewrite (onkeyup_mapped k b s Hk), get_set_other.
Qed.

Lemma X9_down_after_press_up_after_release_witness :
  keyToButton "Enter" = Some Button.Start /\
  get BUTTONS Button.Start == 0 /\
  isButtonDown Button.Start (onkeydown "Enter" 12 BUTTONS) = true.
Proof.
  assert (Hk : keyToButton "Enter" = Some Button.Start) by reflexivity.
  assert (H0 : get BUTTONS Button.Start == 0) by reflexivity.
  split; [exact Hk|]. split; [exact H0|].
  apply (X9_down_after_press_up_after_release "Enter" Button.Start BUTTONS
           12 Hk H0).
  reflexivity.
Defined.

(* ================================================================== *)
(** * Audio *)

Lemma js_get_set_same {V : Type} (k : string) (v : V) (m : JsMap V) :
  js_get k (js_set k v m) = Some v.
Proof.
  induction m as [|[k' v'] m IH]; simpl.
  - now rewrite String.eqb_refl.
  - destruct (String.eqb k k') eqn:E; simpl.
    + now rewrite String.eqb_refl.
    + now rewrite E.
Qed.

Lemma js_get_set_other {V : Type} (k k' : string) (v : V) (m : JsMap V) :
  k' <> k -> js_get k' (js_set k v m) = js_get k' m.
Proof.
  intro Hne. induction m as [|[k0 v0] m IH]; simpl.
  - destruct (String.eqb_spec k' k); [contradiction | reflexivity].
  - destruct (String.eqb_spec k k0) as [-> | Hk]; simpl.
    + destruct (String.eqb_spec k' k0); [contradiction | reflexivity].
    + destruct (String.eqb k' k0); [reflexivity | exact IH].
Qed.

Lemma js_get_In {V : Type} (k : string) (m : JsMap V) :
  js_get k m <> None <-> In k (js_keys m).
Proof.
  induction m as [|[k' v'] m IH]; simpl.
  - split; [congruence | tauto].
  - destruct (String.eqb_spec k k') as [-> | Hk].
    + split; [auto | discriminate].
    + rewrite IH. split; [auto | intros [H | H]; [congruence | exact H]].
Qed.

(** Writing a present key keeps the keys; writing an absent key appends
    it. *)
Lemma js_keys_set {V : Type} (k : string) (v : V) (m : JsMap V) :
  js_keys (js_set k v m) =
  if js_has k m then js_keys m else js_keys m ++ [k].
Proof.
  unfold js_has. induction m as [|[k' v'] m IH]; simpl; [reflexivity|].
  destruct (String.eqb_spec k k') as [-> | Hk]; simpl; [reflexivity|].
  rewrite IH. now destruct (js_get k m).
Qed.

Lemma js_set_same_value {V : Type} (k : string) (v : V) (m : JsMap V) :
  js_get k m = Some v -> js_set k v m = m.
Proof.
  induction m as [|[k' v'] m IH]; simpl; [discriminate|].
  destruct (String.eqb_spec k k') as [-> | Hk].
  - now intros [= ->].
  - intro H. now rewrite IH.
Qed.

(** X10.  For a source that has no entry in [SOUNDS], [isSoundPlaying]
    answers false and [stopSound] leaves the map as it is (no entry is
    made). *)
Theorem X10_unknown_sound (src : string) (s : JsMap Audio)
    (H : js_get src s = None) :
  isSoundPlaying src s = false /\ stopSound src s = s.
Proof.
  unfold isSoundPlaying, stopSound. rewrite H. auto.
Qed.

Lemma X10_unknown_sound_witness :
  js_get "boom.wav" (playSound "music.ogg" true SOUNDS) = None /\
  isSoundPlaying "boom.wav" (playSound "music.ogg" true SOUNDS) = false /\
  stopSound "boom.wav" (playSound "music.ogg" true SOUNDS)
    = playSound "music.ogg" true SOUNDS.
Proof.
  split; [reflexivity|].
  apply (X10_unknown_sound "boom.wav" (playSound "music.ogg" true SOUNDS)).
  reflexivity.
Defined.

(** X11.  [playSound] on a source that is playing changes nothing: the
    sound is not restarted and no element is made, whatever the host
    would decide. *)
Theorem X11_play_while_playing_is_noop (src : string) (allowed : bool)
    (s : JsMap Audio) (H : isSoundPlaying src s = true) :
  playSound src allowed s = s.
Proof.
  unfold playSound, js_has. unfold isSoundPlaying in H.
  destruct (js_get src s) as [a|] eqn:E; [|discriminate].
  cbn [negb]. unfold isSoundPlaying. rewrite E.
  now rewrite H.
Qed.

Lemma X11_play_while_playing_is_noop_witness :
  isSoundPlaying "music.ogg" (playSound "music.ogg" true SOUNDS) = true /\
  playSound "music.ogg" false (playSound "music.ogg" true SOUNDS)
    = playSound "music.ogg" true SOUNDS.
Proof.
  assert (H : isSoundPlaying "music.ogg" (playSound "music.ogg" true SOUNDS)
              = true) by reflexivity.
  split; [exact H|].
  apply (X11_play_while_playing_is_noop "music.ogg" false
           (playSound "music.ogg" true SOUNDS) H).
Defined.

(** [playSound], with the first step done. *)
Lemma playSound_get (src : string) (allowed : bool) (s : JsMap Audio) :
  js_get src (playSound src allowed s) =
  match js_get src s with
  | Some a => Some (if paused a then play allowed a else a)
  | None => Some (play allowed new_Audio)
  end.
Proof.
  unfold playSound, js_has, isSoundPlaying.
  destruct (js_get src s) as [a|] eqn:E; cbn [negb].
  - rewrite E. rewrite negb_involutive.
    destruct (paused a); [apply js_get_set_same | exact E].
  - rewrite js_get_set_same. cbn [new_Audio paused negb].
    now rewrite js_get_set_same.
Qed.

Lemma playSound_other (src src' : string) (allowed : bool)
    (s : JsMap Audio) :
  src' <> src -> js_get src' (playSound src allowed s) = js_get src' s.
Proof.
  intro Hne. unfold playSound.
  set (s1 := if negb (js_has src s) then js_set src new_Audio s else s).
  assert (H1 : js_get src' s1 = js_get src' s).
  { unfold s1. destruct (negb (js_has src s)); [|reflexivity].
    now apply js_get_set_other. }
  destruct (negb (isSoundPlaying src s1)); [|exact H1].
  destruct (js_get src s1); [|exact H1].
  now rewrite js_get_set_other.
Qed.

(** X12.  After [playSound(src)] the map has an element for [src]; if the
    host lets it play, [isSoundPlaying(src)] is true; if the host refuses
    and the sound was not playing, the element is there and
    [isSoundPlaying(src)] is false; the element of any other source is
    untouched. *)
Theorem X12_play_sound_effect (src : string) (allowed : bool)
    (s : JsMap Audio) :
  js_has src (playSound src allowed s) = true /\
  (allowed = true -> isSoundPlaying src (playSound src allowed s) = true) /\
  (allowed = false -> isSoundPlaying src s = false ->
   isSoundPlaying src (playSound src allowed s) = false) /\
  (forall src', src' <> src ->
     js_get src' (playSound src allowed s) = js_get src' s /\
     isSoundPlaying src' (playSound src allowed s) = isSoundPlaying src' s).
Proof.
  unfold js_has, isSoundPlaying.
  rewrite (playSound_get src allowed s).
  split; [now destruct (js_get src s)|].
  split; [|split].
  - intros ->. destruct (js_get src s) as [a|]; [|reflexivity].
    destruct (paused a) eqn:Ep; cbn; [reflexivity | now rewrite Ep].
  - intros -> Hs. destruct (js_get src s) as [a|]; [|reflexivity].
    cbn [play]. destruct (paused a) eqn:Ep; cbn in *;
      [now rewrite Ep | discriminate].
  - intros src' Hne. rewrite (playSound_other src src' allowed s Hne).
    auto.
Qed.

Lemma stopSound_keys (src : string) (s : JsMap Audio) :
  js_keys (stopSound src s) = js_keys s.
Proof.
  unfold stopSound. destruct (js_get src s) eqn:E; [|reflexivity].
  rewrite js_keys_set. unfold js_has. now rewrite E.
Qed.

(** X13.  After [stopSound(src)], [isSoundPlaying(src)] is false; an
    element that was there is paused with [currentTime] 0; the map has
    the same keys in the same order; and the element of any other source
    is untouched. *)
Theorem X13_stop_sound_effect (src : string) (s : JsMap Audio) :
  isSoundPlaying src (stopSound src s) = false /\
  (js_has src s = true ->
   js_get src (stopSound src s) = Some (mkAudio true 0)) /\
  js_keys (stopSound src s) = js_keys s /\
  (forall src', src' <> src ->
     js_get src' (stopSound src s) = js_get src' s).
Proof.
  split; [|split; [|split]].
  - unfold isSoundPlaying, stopSound.
    destruct (js_get src s) eqn:E.
    + now rewrite js_get_set_same.
    + now rewrite E.
  - unfold js_has, stopSound.
    destruct (js_get src s); [intros _ | discriminate].
    apply js_get_set_same.
  - apply stopSound_keys.
  - intros src' Hne. unfold stopSound.
    destruct (js_get src s); [|reflexivity].
    now apply js_get_set_other.
Qed.

Lemma playSound_keys (src : string) (allowed : bool) (s : JsMap Audio) :
  js_keys (playSound src allowed s) =
  if js_has src s then js_keys s else js_keys s ++ [src].
Proof.
  unfold playSound.
  set (s1 := if negb (js_has src s) then js_set src new_Audio s else s).
  assert (K1 : js_keys s1 =
               if js_has src s then js_keys s else js_keys s ++ [src]).
  { unfold s1. destruct (js_has src s) eqn:E; cbn [negb]; [reflexivity|].
    rewrite js_keys_set. now rewrite E. }
  destruct (negb (isSoundPlaying src s1)); [|exact K1].
  destruct (js_get src s1) eqn:E1; [|exact K1].
  rewrite js_keys_set. unfold js_has. now rewrite E1.
Qed.

Lemma playback_ended_keys (src : string) (s : JsMap Audio) :
  js_keys (playback_ended src s) = js_keys s.
Proof.
  unfold playback_ended. destruct (js_get src s) eqn:E; [|reflexivity].
  rewrite js_keys_set. unfold js_has. now rewrite E.
Qed.

Lemma js_has_In {V : Type} (k : string) (m : JsMap V) :
  js_has k m = true <-> In k (js_keys m).
Proof.
  rewrite <- js_get_In. unfold js_has.
  destruct (js_get k m); split; congruence.
Qed.

Lemma NoDup_snoc {A : Type} (l : list A) (x : A) :
  NoDup l -> ~ In x l -> NoDup (l ++ [x]).
Proof.
  induction 1 as [|y l Hy Hl IH]; intro Hx; simpl.
  - constructor; [tauto | constructor].
  - constructor.
    + rewrite in_app_iff. simpl. intros [H | [H | []]]; [tauto|].
      subst. apply Hx. now left.
    + apply IH. intro H. apply Hx. now right.
Qed.

(** What one operation does to the keys of [SOUNDS]. *)
Lemma sound_step_keys (s : JsMap Audio) (o : SoundOp) :
  NoDup (js_keys s) ->
  NoDup (js_keys (sound_step s o)) /\
  forall src, In src (js_keys (sound_step s o)) <->
              In src (js_keys s) \/ exists allowed, o = PlaySound src allowed.
Proof.
  intro Hnd. destruct o as [k allowed | k | k]; cbn [sound_step].
  - rewrite playSound_keys. destruct (js_has k s) eqn:E.
    + split; [exact Hnd|]. intro src. split; [auto|].
      intros [H | (al & [= <- _])]; [exact H|]. now apply js_has_In.
    + assert (Hk : ~ In k (js_keys s)).
      { rewrite <- js_has_In. congruence. }
      split; [now apply NoDup_snoc|]. intro src.
      rewrite in_app_iff. simpl. split.
      * intros [H | [<- | []]]; [now left | right; eauto].
      * intros [H | (al & [= <- _])]; auto.
  - rewrite stopSound_keys. split; [exact Hnd|]. intro src.
    split; [auto | intros [H | (al & [=])]; exact H].
  - rewrite playback_ended_keys. split; [exact Hnd|]. intro src.
    split; [auto | intros [H | (al & [=])]; exact H].
Qed.

Lemma sound_steps_keys (os : list SoundOp) (s : JsMap Audio) :
  NoDup (js_keys s) ->
  NoDup (js_keys (sound_steps os s)) /\
  forall src, In src (js_keys (sound_steps os s)) <->
              In src (js_keys s) \/ played src os.
Proof.
  unfold sound_steps, played. revert s.
  induction os as [|o os IH]; intros s Hnd; simpl.
  - split; [exact Hnd|]. intro src. split; [auto|].
    intros [H | (al & [])]; exact H.
  - destruct (sound_step_keys s o Hnd) as (Hnd1 & Hin1).
    destruct (IH (sound_step s o) Hnd1) as (Hnd2 & Hin2).
    split; [exact Hnd2|]. intro src. rewrite Hin2, Hin1. split.
    + intros [[H | (al & Ho)] | (al & H)].
      * now left.
      * right. exists al. now left.
      * right. exists al. now right.
    + intros [H | (al & [Ho | H])].
      * left. now left.
      * left. right. now exists al.
      * right. now exists al.
Qed.

(** X14.  After any sequence of [playSound], [stopSound] and ends of
    playback, starting from the empty [SOUNDS]: no source has two
    elements, and a source has an element exactly when [playSound] was
    called for it; [stopSound] never removes one and never makes one. *)
Theorem X14_one_element_per_played_source (os : list SoundOp) :
  NoDup (js_keys (sound_steps os SOUNDS)) /\
  (forall src, js_has src (sound_steps os SOUNDS) = true <-> played src os).
Proof.
  destruct (sound_steps_keys os SOUNDS (NoDup_nil _)) as (Hnd & Hin).
  split; [exact Hnd|]. intro src. rewrite js_has_In, Hin.
  split; [intros [[] | H]; exact H | auto].
Qed.

(** X15.  Stopping a sound that has an element and playing it again, with
    the host allowing it, restarts it on the same element: the keys of
    the map are unchanged, and the element is playing with [currentTime]
    0. *)
Theorem X15_stop_then_play_restarts (src : string) (s : JsMap Audio)
    (H : js_has src s = true) :
  js_get src (playSound src true (stopSound src s))
    = Some (mkAudio false 0) /\
  js_keys (playSound src true (stopSound src s)) = js_keys s /\
  isSoundPlaying src (playSound src true (stopSound src s)) = true.
Proof.
  assert (Hget : js_get src (stopSound src s) = Some (mkAudio true 0)).
  { unfold js_has in H. unfold stopSound.
    destruct (js_get src s); [apply js_get_set_same | discriminate]. }
  pose proof (stopSound_keys src s) as Hkeys.
  assert (Hhas : js_has src (stopSound src s) = true).
  { unfold js_has. now rewrite Hget. }
  assert (G : js_get src (playSound src true (stopSound src s))
              = Some (mkAudio false 0)).
  { rewrite playSound_get, Hget. reflexivity. }
  split; [exact G|]. split.
  - rewrite playSound_keys, Hhas. exact Hkeys.
  - unfold isSoundPlaying. now rewrite G.
Qed.

Lemma X15_stop_then_play_restarts_witness :
  js_has "music.ogg" (playSound "music.ogg" true SOUNDS) = true /\
  js_get "music.ogg"
    (playSound "music.ogg" true
       (stopSound "music.ogg" (playSound "music.ogg" true SOUNDS)))
    = Some (mkAudio false 0).
Proof.
  assert (H : js_has "music.ogg" (playSound "music.ogg" true SOUNDS) = true)
    by reflexivity.
  split; [exact H|].
  apply (X15_stop_then_play_restarts "music.ogg"
           (playSound "music.ogg" true SOUNDS) H).
Defined.

(* ================================================================== *)
(** * Sprites and text *)

(** X16.  The cell of the font sheet that [drawText] reads for a
    character: for a character code from 32 up (in the basic plane) the
    column is in 0..15, the row is not negative, and row and column give
    the code back, so different characters read different cells; the
    codes 32..127 fill the rows 0..5; a control character below 32 (the
    line feed among them) gets a negative row, a cell outside the
    sheet. *)
Theorem X16_glyph_cell :
  (forall char, (32 <= char < 65536)%Z ->
     (0 <= fst (glyph_cell char) < 16)%Z /\
     (0 <= snd (glyph_cell char))%Z /\
     (32 + 16 * snd (glyph_cell char) + fst (glyph_cell char) = char)%Z) /\
  (forall char, (32 <= char <= 127)%Z -> (snd (glyph_cell char) <= 5)%Z) /\
  (forall char, (0 <= char < 32)%Z ->
     (snd (glyph_cell char) < 0)%Z /\ (fst (glyph_cell char) <= 0)%Z) /\
  glyph_cell 10 = ((-6)%Z, (-2)%Z).
Proof.
  unfold glyph_cell, charCodeAt0. cbn [fst snd].
  repeat split; intros;
    try (destruct (Z.ltb_spec char 65536); [|lia]);
    try (Z.to_euclidean_division_equations; lia).
Qed.

(** [drawSprite] when the image of [src] is cached. *)
Lemma drawSprite_cached (src : string) (rect : Rectangle.t)
    (pos : Vector2.t) (a : Assets) (img : Image) :
  js_get src (SPRITES a) = Some img ->
  drawSprite src rect pos a = Some (a, sprite_call img rect pos).
Proof.
  intro H. unfold drawSprite, js_has. rewrite H. cbn [negb].
  now rewrite H.
Qed.

(** [drawSprite] when it is not: the image it caches and draws. *)
Lemma drawSprite_fresh (src : string) (rect : Rectangle.t)
    (pos : Vector2.t) (a : Assets) :
  js_get src (SPRITES a) = None ->
  exists img n,
    drawSprite src rect pos a =
      Some (mkAssets (FONTS a) (js_set src img (SPRITES a)) n,
            sprite_call img rect pos) /\
    match js_get src (FONTS a) with
    | Some font => img = data font /\ n = next_image a
    | None => img = mkImage (next_image a) src /\ n = S (next_image a)
    end.
Proof.
  intro H. unfold drawSprite, js_has. rewrite H. cbn [negb].
  unfold sprite_call.
  destruct (js_get src (FONTS a)) as [font|];
    cbn [SPRITES]; rewrite js_get_set_same;
    eexists _, _; (split; [reflexivity | auto]).
Qed.

(** X17.  [drawSprite] never draws an undefined image.  The first call
    for a source caches one image for it: the image of the font of that
    name if [FONTS] has one (no image is made), else a new image whose
    [src] is the source.  Every later call for the source draws that same
    image and leaves both caches as they are.  The images cached for
    other sources, and [FONTS], are never touched. *)
Theorem X17_sprite_cache (src : string) (rect rect' : Rectangle.t)
    (pos pos' : Vector2.t) (a : Assets) :
  exists a1 img,
    drawSprite src rect pos a = Some (a1, sprite_call img rect pos) /\
    js_get src (SPRITES a1) = Some img /\
    drawSprite src rect' pos' a1 = Some (a1, sprite_call img rect' pos') /\
    FONTS a1 = FONTS a /\
    (forall src', src' <> src ->
       js_get src' (SPRITES a1) = js_get src' (SPRITES a)) /\
    match js_get src (SPRITES a), js_get src (FONTS a) with
    | Some img0, _ => img = img0 /\ a1 = a
    | None, Some font => img = data font /\ next_image a1 = next_image a
    | None, None =>
        img = mkImage (next_image a) src /\
        next_image a1 = S (next_image a)
    end.
Proof.
  destruct (js_get src (SPRITES a)) as [img0|] eqn:E.
  - exists a, img0.
    rewrite !(drawSprite_cached src _ _ a img0 E). repeat split; auto.
  - destruct (drawSprite_fresh src rect pos a E) as (img & n & Hd & Hm).
    exists (mkAssets (FONTS a) (js_set src img (SPRITES a)) n), img.
    split; [exact Hd|].
    assert (G : js_get src (js_set src img (SPRITES a)) = Some img)
      by apply js_get_set_same.
    split; [exact G|].
    split; [now apply drawSprite_cached|].
    split; [reflexivity|].
    split; [intros src' Hne; now apply js_get_set_other|].
    destruct (js_get src (FONTS a)); exact Hm.
Qed.

Lemma drawSprites_cached (src : string)
    (args : list (Rectangle.t * Vector2.t)) (a : Assets) (img : Image) :
  js_get src (SPRITES a) = Some img ->
  drawSprites src args a =
  Some (a, map (fun rp => sprite_call img (fst rp) (snd rp)) args).
Proof.
  intro H. induction args as [|[rect pos] args IH]; simpl; [reflexivity|].
  rewrite (drawSprite_cached src rect pos a img H), IH. reflexivity.
Qed.

Lemma text_loop_length (fs pos : Vector2.t) (cX cY : number)
    (text : list Z) :
  List.length (text_loop fs pos cX cY text) = List.length text.
Proof.
  revert cX cY. induction text as [|c text IH]; intros cX cY; simpl;
    [reflexivity | now rewrite IH].
Qed.

(** The caches after the first block and the loop of [drawText], and
    the image its characters are drawn from. *)
Lemma glyphs_run (font_params : string -> string * Vector2.t)
    (src : string) (text : list Z) (pos : Vector2.t) (a : Assets) :
  exists font a1 img,
    js_get src (FONTS (register_font font_params src a)) = Some font /\
    drawSprites src (text_loop (size font) pos (Fin 0) (Fin 0) text)
                (register_font font_params src a) =
      Some (a1,
            map (fun rp => sprite_call img (fst rp) (snd rp))
                (text_loop (size font) pos (Fin 0) (Fin 0) text)) /\
    FONTS a1 = FONTS (register_font font_params src a) /\
    next_image a1 = next_image (register_font font_params src a) /\
    (text <> [] -> js_get src (SPRITES a1) = Some img) /\
    (text = [] -> a1 = register_font font_params src a) /\
    match js_get src (SPRITES a) with
    | Some img0 => img = img0 /\ SPRITES a1 = SPRITES a
    | None => img = data font
    end.
Proof.
  set (a0 := register_font font_params src a).
  assert (Hs : SPRITES a0 = SPRITES a).
  { unfold a0, register_font. now destruct (negb _). }
  assert (Hf : exists font, js_get src (FONTS a0) = Some font).
  { unfold a0, register_font, js_has.
    destruct (js_get src (FONTS a)) as [f|] eqn:E; cbn [negb].
    - eauto.
    - cbn [FONTS]. rewrite js_get_set_same. eauto. }
  destruct Hf as (font & Hfont). exists font.
  destruct (js_get src (SPRITES a)) as [img0|] eqn:E.
  - exists a0, img0. split; [exact Hfont|].
    rewrite (drawSprites_cached src _ a0 img0) by (now rewrite Hs).
    repeat split; auto. intros _. now rewrite Hs.
  - destruct text as [|c text].
    + exists a0, (data font). repeat split; auto. congruence.
    + cbn [text_loop drawSprites].
      match goal with
      | |- context [drawSprite src ?r ?p a0] =>
          destruct (drawSprite_fresh src r p a0) as (img & n & Hd & Hm);
            [now rewrite Hs | rewrite Hd]
      end.
      rewrite Hfont in Hm. destruct Hm as (-> & ->).
      rewrite (drawSprites_cached src _ _ (data font))
        by (cbn [SPRITES]; apply js_get_set_same).
      eexists _, (data font). split; [exact Hfont|].
      split; [reflexivity|].
      cbn [FONTS next_image SPRITES].
      repeat split; auto; try congruence.
      intros _. apply js_get_set_same.
Qed.

(** A component of a colour that does not differ from 255. *)
Lemma nneq_255 (n : number) :
  nneq n (Fin 255) = false <-> exists q, n = Fin q /\ q == 255.
Proof.
  destruct n as [q| | | |]; cbn [nneq]; split;
    try discriminate; try (intros (q' & Hq & _); discriminate).
  - intro H. apply negb_false_iff, Qeq_bool_iff in H. eauto.
  - intros (q' & [= <-] & Hq). apply negb_false_iff. now apply Qeq_bool_iff.
Qed.

(** X18.  [drawText] never reads an undefined font or image.  It makes
    one call of [drawImage] per code point of the text, all with the same
    image: the one cached in [SPRITES] for the source if there was one,
    else the image of the font; it makes one image if the font was not
    in [FONTS] and none otherwise.  No mask is needed exactly when the
    four components of the colour are 255.  Then these calls are all it
    does, they go to the context [GFX], and drawing the same text again
    changes nothing and repeats the same calls.  For any other colour a
    context is created, with smoothing off and the size of [GFX]'s
    canvas; the calls for the characters go to it; it is then set to
    [source-in], filled with the colour, its alpha divided by 255, and
    drawn at the origin on the context that [GFX] was on entry, which
    [GFX] is again afterwards, while [TXT] is the new context. *)
Theorem X18_text_draws_from_one_image
    (font_params : string -> string * Vector2.t)
    (src : string) (text : list Z) (pos : Vector2.t) (color : Color.t)
    (s : Graphics) :
  exists a1 ds img,
    List.length ds = List.length text /\
    (forall d, In d ds -> di_image d = img) /\
    (forall img0, js_get src (SPRITES (assets s)) = Some img0 ->
                  img = img0) /\
    (js_get src (SPRITES (assets s)) = None ->
     exists font, js_get src (FONTS a1) = Some font /\ img = data font) /\
    next_image a1 =
      (next_image (assets s)
       + (if js_has src (FONTS (assets s)) then 0 else 1))%nat /\
    (needsMask color = false <->
     exists r g b a,
       color = Color.mk (Fin r) (Fin g) (Fin b) (Fin a) /\
       r == 255 /\ g == 255 /\ b == 255 /\ a == 255) /\
    (needsMask color = false ->
     drawText font_params src text pos color s =
       Some (mkGraphics (GFX s) (TXT s) a1 (next_context s),
             map (DrawImageCall (GFX s)) ds) /\
     drawText font_params src text pos color
       (mkGraphics (GFX s) (TXT s) a1 (next_context s)) =
       Some (mkGraphics (GFX s) (TXT s) a1 (next_context s),
             map (DrawImageCall (GFX s)) ds)) /\
    (needsMask color = true ->
     drawText font_params src text pos color s =
       Some (mkGraphics (GFX s) (Some (mkContext (next_context s))) a1
                        (S (next_context s)),
             [CreateContext (mkContext (next_context s));
              SetImageSmoothing (mkContext (next_context s)) false;
              CopyWidth (mkContext (next_context s)) (GFX s);
              CopyHeight (mkContext (next_context s)) (GFX s)]
             ++ map (DrawImageCall (mkContext (next_context s))) ds
             ++ [SetComposite (mkContext (next_context s)) "source-in";
                 SetFillStyle (mkContext (next_context s))
                   (Color.r color) (Color.g color) (Color.b color)
                   (ndiv (Color.a color) (Fin 255));
                 FillAll (mkContext (next_context s));
                 DrawCanvas (GFX s) (mkContext (next_context s))
                   (Fin 0) (Fin 0)])).
Proof.
  destruct (glyphs_run font_params src text pos (assets s))
    as (font & a1 & img & Hfont & Hd & HF & Hn & Hne & Hnil & Hm).
  exists a1,
    (map (fun rp => sprite_call img (fst rp) (snd rp))
         (text_loop (size font) pos (Fin 0) (Fin 0) text)), img.
  split; [now rewrite length_map, text_loop_length|].
  split.
  { intros d Hin. apply in_map_iff in Hin.
    destruct Hin as (rp & <- & _). reflexivity. }
  split.
  { intros img0 H0. rewrite H0 in Hm. tauto. }
  split.
  { intro H0. rewrite H0 in Hm. exists font. rewrite HF. auto. }
  split.
  { rewrite Hn. unfold register_font.
    destruct (js_has src (FONTS (assets s))); cbn [negb next_image]; lia. }
  split.
  { unfold needsMask. rewrite !orb_false_iff, !nneq_255. split.
    - intros ((((r & Hr & Hr') & (g & Hg & Hg')) & (b & Hb & Hb'))
              & (a & Ha & Ha')).
      exists r, g, b, a. destruct color as [cr cg cb ca].
      cbn [Color.r Color.g Color.b Color.a] in *. subst. auto.
    - intros (r & g & b & a & -> & Hr & Hg & Hb & Ha).
      cbn [Color.r Color.g Color.b Color.a].
      repeat split; eexists; (split; [reflexivity|assumption]). }
  split.
  - intro Hmask. split.
    + unfold drawText. rewrite Hfont, Hmask. cbn [assets GFX TXT].
      rewrite Hd. reflexivity.
    + assert (Hreg : register_font font_params src a1 = a1).
      { unfold register_font, js_has. rewrite HF, Hfont. reflexivity. }
      unfold drawText. cbn [assets GFX TXT next_context].
      rewrite Hreg, HF, Hfont, Hmask. cbn [assets GFX TXT next_context].
      destruct text as [|c text].
      * reflexivity.
      * rewrite (drawSprites_cached src _ a1 img)
          by (apply Hne; discriminate).
        reflexivity.
  - intro Hmask. unfold drawText. rewrite Hfont, Hmask.
    cbn [assets GFX TXT next_context]. rewrite Hd. reflexivity.
Qed.

(** The text Hi in red on a fresh module state: ten operations, the
    last of which draws the offscreen context on the visible one. *)
Lemma X18_text_draws_from_one_image_witness :
  needsMask (rgba (Fin 255) (Fin 0) (Fin 0) (Fin 255)) = true /\
  exists s' ops,
    drawText (fun _ => ("font.png", Vector2.mk (Fin 8) (Fin 8)))
      "font.png?charw=8&charh=8" [72; 105]%Z (Vector2.mk (Fin 3) (Fin 4))
      (rgba (Fin 255) (Fin 0) (Fin 0) (Fin 255))
      (mkGraphics (mkContext 0) None no_assets 1) = Some (s', ops) /\
    GFX s' = mkContext 0 /\ TXT s' = Some (mkContext 1) /\
    List.length ops = 10%nat /\
    nth_error ops 0 = Some (CreateContext (mkContext 1)) /\
    nth_error ops 7
      = Some (SetFillStyle (mkContext 1) (Fin 255) (Fin 0) (Fin 0) (Fin 1)) /\
    nth_error ops 9
      = Some (DrawCanvas (mkContext 0) (mkContext 1) (Fin 0) (Fin 0)).
Proof.
  assert (Hm : needsMask (rgba (Fin 255) (Fin 0) (Fin 0) (Fin 255)) = true)
    by reflexivity.
  split; [exact Hm|].
  destruct (X18_text_draws_from_one_image
              (fun _ => ("font.png", Vector2.mk (Fin 8) (Fin 8)))
              "font.png?charw=8&charh=8" [72; 105]%Z
              (Vector2.mk (Fin 3) (Fin 4))
              (rgba (Fin 255) (Fin 0) (Fin 0) (Fin 255))
              (mkGraphics (mkContext 0) None no_assets 1))
    as (a1 & ds & img & Hlen & _ & _ & _ & _ & _ & _ & Hdraw).
  specialize (Hdraw Hm). cbn [GFX next_context] in Hdraw.
  destruct ds as [|d1 [|d2 [|d3 ds]]]; try discriminate Hlen.
  eexists _, _. split; [exact Hdraw|].
  cbn [GFX TXT map app List.length nth_error Color.a rgba].
  repeat split.
Defined.

(** ** The layout of a text *)

Lemma not_newline (char : Z) : char <> 10%Z -> (char =? 10)%Z = false.
Proof. intro H. now apply Z.eqb_neq. Qed.

(** The [k]-th character of a text without line feed, for any values of
    the loop's cursor variables. *)
Lemma text_loop_line (sx sy px py cx cy : Q) (text : list Z) (k : nat)
    (char : Z) :
  Forall (fun ch => ch <> 10%Z) text ->
  nth_error text k = Some char ->
  exists dx,
    nth_error
      (text_loop (Vector2.mk (Fin sx) (Fin sy)) (Vector2.mk (Fin px) (Fin py))
                 (Fin cx) (Fin cy) text) k =
    Some (Rectangle.mk (Fin (inject_Z (fst (glyph_cell char)) * sx))
                       (Fin (inject_Z (snd (glyph_cell char)) * sy))
                       (Fin sx) (Fin sy),
          Vector2.mk (Fin dx) (Fin (inject_Z (Qfloor py) + cy))) /\
    dx == inject_Z (Qfloor px) + cx + inject_Z (Z.of_nat k) * sx.
Proof.
  intro Hnl. revert k cx.
  induction Hnl as [|c text Hc _ IH]; intros k cx Hk.
  - destruct k; discriminate.
  - cbn [text_loop]. rewrite (not_newline c Hc).
    destruct k as [|k]; cbn [nth_error] in *.
    + injection Hk as <-. eexists. split; [reflexivity|].
      cbn. ring.
    + cbn [Vector2.x Vector2.y nadd].
      destruct (IH k (cx + sx) Hk) as (dx & Hn & Hdx).
      exists dx. split; [exact Hn|].
      rewrite Hdx, inject_nat_succ. ring.
Qed.



(** A prefix without line feed only moves the cursor to the right. *)
Lemma text_loop_prefix (sx sy px py cx cy : Q) (pre rest : list Z) :
  Forall (fun ch => ch <> 10%Z) pre ->
  exists cx',
    text_loop (Vector2.mk (Fin sx) (Fin sy)) (Vector2.mk (Fin px) (Fin py))
              (Fin cx) (Fin cy) (pre ++ rest) =
    text_loop (Vector2.mk (Fin sx) (Fin sy)) (Vector2.mk (Fin px) (Fin py))
              (Fin cx) (Fin cy) pre ++
    text_loop (Vector2.mk (Fin sx) (Fin sy)) (Vector2.mk (Fin px) (Fin py))
              (Fin cx') (Fin cy) rest.
Proof.
  intro Hnl. revert cx.
  induction Hnl as [|c pre Hc _ IH]; intro cx.
  - exists cx. reflexivity.
  - cbn [app text_loop]. rewrite (not_newline c Hc).
    cbn [Vector2.x Vector2.y nadd].
    destruct (IH (cx + sx)) as (cx' & ->). exists cx'. reflexivity.
Qed.


